(** * Jawahar Photo Editor: the processing workflow of [src/App.tsx]

    A shallow embedding of the [App] component's state and handlers
    ([handleImageUpload], [handleProcessImage], [canProcess],
    [setBackgroundOption]) and of the helper [fileToBase64], together with
    the properties of the workflow proved about them.

    The component is asynchronous: [handleProcessImage] suspends twice, at
    [await fileToBase64(...)] and at [await processImage(...)].  An
    invocation is therefore embedded as a synchronous prefix plus a
    continuation stored in the [World]; the browser resumes a continuation
    by delivering the outcome of the FileReader or of the remote promise. *)

From Stdlib Require Import Ascii String.
From stdpp Require Import gmap strings list fin_maps.

Local Open Scope string_scope.

(** ** Platform values *)

(** Modelled from the spec: [BackgroundOption] is declared in [./types],
    which is not part of the sources at hand; the specification gives it
    the two variants [ORIGINAL] and [WHITE]. *)
Inductive BackgroundOption : Type :=
  | ORIGINAL
  | WHITE.

#[global] Instance BackgroundOption_eq_dec : EqDecision BackgroundOption.
Proof. solve_decision. Defined.

(** A browser [File]: a name, a declared media type and the raw content. *)
Record File : Type := mkFile {
  file_name : string;
  file_type : string;
  file_content : string
}.

(** A value used to reject a promise (an [Error] from [processImage], the
    FileReader's error event), seen through the one property the component
    reads: [err.message], which is undefined when the object has none, as
    the FileReader's event does. *)
Record Thrown : Type := mkThrown {
  message : option string
}.

(** How a promise may settle. *)
Inductive Settled (A : Type) : Type :=
  | Resolved (value : A)
  | Rejected (err : Thrown).
Arguments Resolved {A} value.
Arguments Rejected {A} err.

(** What the [FileReader] started by [fileToBase64] eventually fires:
    [onload] with [reader.result], or [onerror] with its event. *)
Inductive ReaderOutcome : Type :=
  | Loaded (result : string)
  | Errored (event : Thrown).

(** ** JavaScript primitives used by the component *)

(** [s.split(sep)] for a one-character separator: never empty. *)
Fixpoint split (sep : Ascii.ascii) (s : string) : list string :=
  match s with
  | EmptyString => [EmptyString]
  | String c rest =>
      if Ascii.eqb c sep then EmptyString :: split sep rest
      else match split sep rest with
           | piece :: pieces => String c piece :: pieces
           | [] => [String c EmptyString]
           end
  end.

(** Truthiness of a [string | null] value. *)
Definition truthy (v : option string) : bool :=
  match v with
  | Some s => negb (String.eqb s "")
  | None => false
  end.

(** [a || b] where [a] is [string | undefined] and [b] a string. *)
Definition or_else (a : option string) (b : string) : string :=
  if truthy a then default b a else b.

(** Whether [needle] occurs in [hay] (used to read the prompts). *)
Fixpoint occurs_in (needle hay : string) : bool :=
  String.prefix needle hay ||
  match hay with
  | EmptyString => false
  | String _ rest => occurs_in needle rest
  end.

(** ** [fileToBase64] (lines 6-18) *)

Record Encoded : Type := mkEncoded {
  base64 : option string;   (* [result.split(',')[1]], undefined without a comma *)
  mimeType : string
}.

(** The body of [reader.onload].  [None] means the handler threw a
    TypeError (a [split] on undefined) before reaching [resolve], so the
    promise is never settled. *)
Definition reader_onload (result : string) : option Encoded :=
  header ← split ","%char result !! 0;
  afterColon ← split ":"%char header !! 1;
  mime ← split ";"%char afterColon !! 0;
  Some {| base64 := split ","%char result !! 1; mimeType := mime |}.

(** How the promise returned by [fileToBase64] settles, if it does. *)
Definition fileToBase64 (outcome : ReaderOutcome) : option (Settled Encoded) :=
  match outcome with
  | Loaded result => Resolved <$> reader_onload result
  | Errored event => Some (Rejected event)
  end.

(** ** The component state (lines 183-188) *)

Record WorkflowState : Type := mkState {
  uploadedFile : option File;
  previewUrl : option nat;            (* an object URL, by its registry handle *)
  processedImageUrl : option string;
  backgroundOption : BackgroundOption;
  isLoading : bool;
  error : option string
}.

Definition setUploadedFile (v : option File) (s : WorkflowState) : WorkflowState :=
  mkState v (previewUrl s) (processedImageUrl s) (backgroundOption s) (isLoading s) (error s).
Definition setPreviewUrl (v : option nat) (s : WorkflowState) : WorkflowState :=
  mkState (uploadedFile s) v (processedImageUrl s) (backgroundOption s) (isLoading s) (error s).
Definition setProcessedImageUrl (v : option string) (s : WorkflowState) : WorkflowState :=
  mkState (uploadedFile s) (previewUrl s) v (backgroundOption s) (isLoading s) (error s).
Definition setBackgroundOption (v : BackgroundOption) (s : WorkflowState) : WorkflowState :=
  mkState (uploadedFile s) (previewUrl s) (processedImageUrl s) v (isLoading s) (error s).
Definition setIsLoading (v : bool) (s : WorkflowState) : WorkflowState :=
  mkState (uploadedFile s) (previewUrl s) (processedImageUrl s) (backgroundOption s) v (error s).
Definition setError (v : option string) (s : WorkflowState) : WorkflowState :=
  mkState (uploadedFile s) (previewUrl s) (processedImageUrl s) (backgroundOption s) (isLoading s) v.

(** The values passed to [useState]. *)
Definition initialState : WorkflowState :=
  mkState None None None WHITE false None.

(** Line 227: [uploadedFile && !isLoading], read as the boolean that
    [disabled={!canProcess}] makes of it. *)
Definition canProcess (s : WorkflowState) : bool :=
  match uploadedFile s with
  | Some _ => negb (isLoading s)
  | None => false
  end.

(** ** The prompt (lines 211-213) *)

Definition prompt_white : string :=
  "Enhance this photo to be a clean, modern, professional, realistic headshot. Replace the background with a clean, plain white background with natural, soft studio lighting.".

Definition prompt_original : string :=
  "Enhance this photo to be a clean, modern, professional, realistic headshot with great natural lighting. Keep the original background but make it look more polished, slightly blurred, and high-quality, as if taken by a professional photographer.".

Definition buildInstruction (option : BackgroundOption) : string :=
  if decide (option = WHITE) then prompt_white else prompt_original.

(** ** The world around the component *)

(** One call of [processImage(base64, mimeType, prompt)]. *)
Record RemoteRequest : Type := mkRequest {
  req_base64 : option string;
  req_mimeType : string;
  req_prompt : string
}.

(** Where an invocation of [handleProcessImage] is suspended.  The closure
    was created with the [uploadedFile] and [backgroundOption] of the render
    it belongs to (dependency list, line 225), so the continuation keeps
    them. *)
Inductive Suspended : Type :=
  | AwaitFileToBase64 (file : File) (option : BackgroundOption)   (* line 209 *)
  | AwaitProcessImage                                             (* line 215 *)
  | NeverSettled.   (* [reader.onload] threw: the awaited promise stays pending *)

(** The component state together with what the handlers reach outside it:
    the browser's registry of live object URLs, the suspended invocations
    of [handleProcessImage] (keyed by the order in which they started), and
    the calls made to the FileReader and to [processImage]. *)
Record World : Type := mkWorld {
  ui : WorkflowState;
  objectUrls : gmap nat File;
  nextObjectUrl : nat;
  suspended : gmap nat Suspended;
  nextInvocation : nat;
  readerCalls : list File;
  remoteCalls : list RemoteRequest
}.

Definition with_ui (f : WorkflowState → WorkflowState) (w : World) : World :=
  mkWorld (f (ui w)) (objectUrls w) (nextObjectUrl w) (suspended w)
          (nextInvocation w) (readerCalls w) (remoteCalls w).

Definition with_suspended (f : gmap nat Suspended → gmap nat Suspended) (w : World) : World :=
  mkWorld (ui w) (objectUrls w) (nextObjectUrl w) (f (suspended w))
          (nextInvocation w) (readerCalls w) (remoteCalls w).

Definition initialWorld : World :=
  mkWorld initialState ∅ 0 ∅ 0 [] [].

(** [URL.createObjectURL(file)]: a fresh handle, live until revoked. *)
Definition createObjectURL (file : File) (w : World) : nat * World :=
  (nextObjectUrl w,
   mkWorld (ui w) (<[nextObjectUrl w := file]> (objectUrls w)) (S (nextObjectUrl w))
           (suspended w) (nextInvocation w) (readerCalls w) (remoteCalls w)).

(** [URL.revokeObjectURL(url)]: what releasing a handle means.  The
    component never calls it. *)
Definition revokeObjectURL (url : nat) (w : World) : World :=
  mkWorld (ui w) (delete url (objectUrls w)) (nextObjectUrl w)
          (suspended w) (nextInvocation w) (readerCalls w) (remoteCalls w).

Definition released (url : nat) (w : World) : Prop :=
  objectUrls w !! url = None.

(** ** The handlers *)

(** Lines 190-196. *)
Definition handleImageUpload (file : File) (w : World) : World :=
  let w1 := with_ui (setUploadedFile (Some file)) w in
  let w2 := with_ui (setProcessedImageUrl None) w1 in
  let w3 := with_ui (setError None) w2 in
  let '(objectUrl, w4) := createObjectURL file w3 in
  with_ui (setPreviewUrl (Some objectUrl)) w4.

(** Line 238: the option selector calls the state setter directly. *)
Definition handleOptionChange (option : BackgroundOption) (w : World) : World :=
  with_ui (setBackgroundOption option) w.

Definition fallbackMessage : string := "An unexpected error occurred.".
Definition validationMessage : string := "Please upload an image first.".
Definition dataUrlPrefix : string := "data:image/png;base64,".

(** Lines 220-224: the [catch] and [finally] blocks, which end the
    invocation [id]. *)
Definition catch_finally (id : nat) (err : Thrown) (w : World) : World :=
  let w1 := with_ui (setError (Some (or_else (message err) fallbackMessage))) w in
  let w2 := with_ui (setIsLoading false) w1 in
  with_suspended (delete id) w2.

(** Lines 198-209: [handleProcessImage] up to its first [await]. *)
Definition handleProcessImage (w : World) : World :=
  match uploadedFile (ui w) with
  | None => with_ui (setError (Some validationMessage)) w
  | Some file =>
      let w1 := with_ui (setIsLoading true) w in
      let w2 := with_ui (setError None) w1 in
      let w3 := with_ui (setProcessedImageUrl None) w2 in
      mkWorld (ui w3) (objectUrls w3) (nextObjectUrl w3)
              (<[nextInvocation w3 := AwaitFileToBase64 file (backgroundOption (ui w))]>
                 (suspended w3))
              (S (nextInvocation w3))
              (readerCalls w3 ++ [file]) (remoteCalls w3)
  end.

(** Lines 209-215: the invocation [id] resumes when the FileReader is done,
    builds the prompt and calls [processImage], or is caught. *)
Definition resumeAfterFileToBase64 (id : nat) (outcome : ReaderOutcome) (w : World) : World :=
  match suspended w !! id with
  | Some (AwaitFileToBase64 file option) =>
      match fileToBase64 outcome with
      | Some (Resolved encoded) =>
          let prompt := buildInstruction option in
          mkWorld (ui w) (objectUrls w) (nextObjectUrl w)
                  (<[id := AwaitProcessImage]> (suspended w)) (nextInvocation w)
                  (readerCalls w)
                  (remoteCalls w ++ [mkRequest (base64 encoded) (mimeType encoded) prompt])
      | Some (Rejected err) => catch_finally id err w
      | None => with_suspended (<[id := NeverSettled]>) w
      end
  | _ => w
  end.

(** Lines 215-224: the invocation [id] resumes when [processImage] settles. *)
Definition resumeAfterProcessImage (id : nat) (outcome : Settled string) (w : World) : World :=
  match suspended w !! id with
  | Some AwaitProcessImage =>
      match outcome with
      | Resolved resultBase64 =>
          let newImageUrl := dataUrlPrefix ++ resultBase64 in
          let w1 := with_ui (setProcessedImageUrl (Some newImageUrl)) w in
          let w2 := with_ui (setIsLoading false) w1 in
          with_suspended (delete id) w2
      | Rejected err => catch_finally id err w
      end
  | _ => w
  end.

(** Lines 239-241: the button runs the handler unless it is disabled. *)
Definition clickProcess (w : World) : World :=
  if canProcess (ui w) then handleProcessImage w else w.

(** ** Runs of the component *)

Inductive Event : Type :=
  | Upload (file : File)                                  (* the uploader's [onImageUpload] *)
  | SelectOption (option : BackgroundOption)              (* the selector's [onOptionChange] *)
  | Click                                                 (* the button, through [disabled] *)
  | Invoke                                                (* [handleProcessImage] called directly *)
  | ReaderDone (id : nat) (outcome : ReaderOutcome)       (* the FileReader fires *)
  | RemoteDone (id : nat) (outcome : Settled string).     (* [processImage] settles *)

Definition step (w : World) (ev : Event) : World :=
  match ev with
  | Upload file => handleImageUpload file w
  | SelectOption option => handleOptionChange option w
  | Click => clickProcess w
  | Invoke => handleProcessImage w
  | ReaderDone id outcome => resumeAfterFileToBase64 id outcome w
  | RemoteDone id outcome => resumeAfterProcessImage id outcome w
  end.

Definition run (w : World) (events : list Event) : World :=
  foldl step w events.

(** Events that reach the handler only through the interface, where the
    button is the one way to start processing. *)
Definition through_ui (ev : Event) : bool :=
  match ev with
  | Invoke => false
  | _ => true
  end.

Definition ui_run (events : list Event) : Prop :=
  forallb through_ui events = true.

Definition is_upload (ev : Event) : bool :=
  match ev with
  | Upload _ => true
  | _ => false
  end.

Definition count_uploads (events : list Event) : nat :=
  length (List.filter is_upload events).

(** ** Predicates on worlds *)

(** The invocation [id] is suspended in [w] and ended by [ev]. *)
Definition settles (id : nat) (w : World) (ev : Event) : Prop :=
  is_Some (suspended w !! id) ∧ suspended (step w ev) !! id = None.

(** The two ways in which the invocation [id] fails with [err]: the FileReader fires
    [onerror] while it awaits [fileToBase64], or [processImage] rejects
    while it awaits that. *)
Inductive fails_with (w : World) (id : nat) (err : Thrown) : Event → Prop :=
  | encode_fails file option :
      suspended w !! id = Some (AwaitFileToBase64 file option) →
      fails_with w id err (ReaderDone id (Errored err))
  | remote_fails :
      suspended w !! id = Some AwaitProcessImage →
      fails_with w id err (RemoteDone id (Rejected err)).

(** The events by which the environment completes the invocation [id]:
    one of the two failures, or [processImage] resolving with a payload
    while the invocation awaits it. *)
Inductive completes (w : World) (id : nat) : Event → Prop :=
  | completes_failure err ev :
      fails_with w id err ev → completes w id ev
  | completes_success p :
      suspended w !! id = Some AwaitProcessImage →
      completes w id (RemoteDone id (Resolved p)).

(** Exactly one of the result and the error is shown. *)
Definition exactly_one_outcome (s : WorkflowState) : bool :=
  xorb (truthy (processedImageUrl s)) (truthy (error s)).

(** What discarding a completion would mean: the result and the error
    are the same after it as before it. *)
Definition completion_discarded (before after : World) : Prop :=
  processedImageUrl (ui after) = processedImageUrl (ui before)
  ∧ error (ui after) = error (ui before).

(** Without a file the component is idle. *)
Definition idle_without_file (w : World) : Prop :=
  uploadedFile (ui w) = None → isLoading (ui w) = false.

(** Behind the button at most one invocation is suspended, and while it
    is, the component is loading and shows neither result nor error. *)
Definition one_in_flight (w : World) : Prop :=
  suspended w = ∅
  ∨ ∃ id k, suspended w = {[id := k]}
            ∧ isLoading (ui w) = true
            ∧ processedImageUrl (ui w) = None
            ∧ error (ui w) = None.

(** Handles are handed out in increasing order. *)
Definition urls_below_next (w : World) : Prop :=
  ∀ url, is_Some (objectUrls w !! url) → url < nextObjectUrl w.

(** ** The uploader (lines 58-78) *)

(** [handleDrag(e, dragging)]: the uploader's own state is [isDragging]. *)
Definition handleDrag (dragging : bool) (isDragging : bool) : bool := dragging.

(** [files && files[0]]: the first file of a [FileList] that may be null
    or empty. *)
Definition firstFile (files : option (list File)) : option File :=
  files ≫= (λ list, list !! 0).

(** [handleDrop]: stop dragging, then hand the first dropped file, if there
    is one, to the [onImageUpload] property. *)
Definition handleDrop {S : Type} (onImageUpload : File → S → S)
    (files : option (list File)) (st : bool * S) : bool * S :=
  let isDragging := handleDrag false (fst st) in
  match firstFile files with
  | Some file => (isDragging, onImageUpload file (snd st))
  | None => (isDragging, snd st)
  end.

(** [handleChange]: the file input changed. *)
Definition handleChange {S : Type} (onImageUpload : File → S → S)
    (files : option (list File)) (st : S) : S :=
  match firstFile files with
  | Some file => onImageUpload file st
  | None => st
  end.

(** ** The views (lines 115-177 and 229-262) *)

(** A URL handed to an [img] or [a] element: the preview is an object URL,
    the result a data URL. *)
Inductive Url : Type :=
  | ObjectUrl (handle : nat)
  | DataUrl (text : string).

(** Truthiness of a [string | null] URL; an object URL is never empty. *)
Definition url_truthy (url : option Url) : bool :=
  match url with
  | Some (ObjectUrl _) => true
  | Some (DataUrl text) => truthy (Some text)
  | None => false
  end.

Record DownloadLink : Type := mkLink {
  href : Url;
  download : string
}.

(** What [renderImageContainer] puts in a panel: the image or the
    placeholder text, and the download link. *)
Record ImagePanel : Type := mkPanel {
  panel_title : string;
  panel_image : option Url;
  panel_placeholder : option string;
  panel_download : option DownloadLink
}.

(** Lines 146-169. *)
Definition renderImageContainer (url : option Url) (title : string)
    (isProcessed : bool) : ImagePanel :=
  mkPanel title
    (if url_truthy url then url else None)
    (if url_truthy url then None
     else Some (if isProcessed then "Your enhanced photo will appear here"
                else "Upload a photo to start"))
    (if url_truthy url && isProcessed
     then (λ u, mkLink u "jawahar-edited-photo.png") <$> url
     else None).

(** Lines 171-176. *)
Definition ImageDisplay (originalUrl processedUrl : option Url) : ImagePanel * ImagePanel :=
  (renderImageContainer originalUrl "Original Photo" false,
   renderImageContainer processedUrl "Professional Photo" true).

(** One radio button of the option selector. *)
Record Radio : Type := mkRadio {
  radio_option : BackgroundOption;
  radio_checked : bool;
  radio_title : string;
  radio_text : string
}.

(** Lines 115-138.  [values] stands for [Object.values(BackgroundOption)],
    which depends on the declaration in [./types]. *)
Definition OptionsSelector (values : list BackgroundOption)
    (selectedOption : BackgroundOption) : list Radio :=
  (λ option,
     let isSelected := bool_decide (selectedOption = option) in
     mkRadio option isSelected
       (if decide (option = ORIGINAL) then "Keep Original" else "Clean White")
       (if decide (option = ORIGINAL) then "Enhance photo with original background."
        else "Replace background with natural white lighting."))
  <$> values.

(** What [App] renders from its state (lines 229-262). *)
Record AppView : Type := mkView {
  view_spinner : bool;
  view_uploaderPreview : option Url;
  view_selectedOption : BackgroundOption;
  view_buttonDisabled : bool;
  view_buttonLabel : string;
  view_errorAlert : option string;
  view_panels : ImagePanel * ImagePanel
}.

Definition renderApp (s : WorkflowState) : AppView :=
  mkView (isLoading s)
         (ObjectUrl <$> previewUrl s)
         (backgroundOption s)
         (negb (canProcess s))
         (if isLoading s then "Processing..." else "Enhance My Photo")
         (if truthy (error s) then error s else None)
         (ImageDisplay (ObjectUrl <$> previewUrl s) (DataUrl <$> processedImageUrl s)).

(** ** Further predicates on strings, events and worlds *)

(** Whether the character [c] occurs in [s]. *)
Fixpoint has_char (c : Ascii.ascii) (s : string) : bool :=
  match s with
  | EmptyString => false
  | String c' rest => Ascii.eqb c' c || has_char c rest
  end.

(** The first piece of [s.split(sep)]. *)
Definition first_piece (sep : Ascii.ascii) (s : string) : string :=
  default EmptyString (split sep s !! 0).

Definition is_click (ev : Event) : bool :=
  match ev with
  | Click => true
  | _ => false
  end.

Definition count_clicks (events : list Event) : nat :=
  length (List.filter is_click events).

(** Uploads and option changes: the intents that start no processing. *)
Definition is_intent (ev : Event) : bool :=
  match ev with
  | Upload _ | SelectOption _ => true
  | _ => false
  end.

(** The file of the last upload of a run. *)
Definition last_upload (events : list Event) : option File :=
  foldl (λ acc ev, match ev with Upload file => Some file | _ => acc end) None events.

(** The result and the error are not both set. *)
Definition not_both (w : World) : Prop :=
  processedImageUrl (ui w) = None ∨ error (ui w) = None.

(** With nothing suspended the component is not loading. *)
Definition idle_when_none_suspended (w : World) : Prop :=
  suspended w = ∅ → isLoading (ui w) = false.


(** The preview is an object URL of the uploaded file. *)
Definition preview_of_file (w : World) : Prop :=
  match uploadedFile (ui w), previewUrl (ui w) with
  | None, None => True
  | Some file, Some url => objectUrls w !! url = Some file
  | _, _ => False
  end.

(** Every FileReader started has at most one call of [processImage], and
    none yet while its invocation awaits the FileReader. *)
Definition calls_paired (w : World) : Prop :=
  (length (remoteCalls w) ≤ length (readerCalls w))%nat
  ∧ ((∃ id file option, suspended w !! id = Some (AwaitFileToBase64 file option)) →
     (length (remoteCalls w) < length (readerCalls w))%nat).

Definition known_prompt (request : RemoteRequest) : Prop :=
  req_prompt request = prompt_white ∨ req_prompt request = prompt_original.

(** ** Sample inputs *)

Definition fileA : File := mkFile "a.jpg" "image/jpeg" "AAA".
Definition fileB : File := mkFile "b.png" "image/png" "BBB".
Definition quotaExceeded : Thrown := mkThrown (Some "quota exceeded").
Definition progressEvent : Thrown := mkThrown None.
Definition jpegDataUrl : string := "data:image/jpeg;base64,QUFB".

(** Scenario D of the specification up to the second upload: file A is
    uploaded and processed, and file B arrives while [processImage] is
    still pending for A. *)
Definition uploadDuringProcessing : list Event :=
  [Upload fileA; Click; ReaderDone 0 (Loaded jpegDataUrl); Upload fileB].

Example split_data_url :
  split ","%char jpegDataUrl = ["data:image/jpeg;base64"; "QUFB"].
Proof. reflexivity. Qed.

Example split_no_separator : split ","%char "abc" = ["abc"].
Proof. reflexivity. Qed.

Example split_empty : split ","%char "" = [""].
Proof. reflexivity. Qed.

Example split_adjacent : split ","%char "a,,b," = ["a"; ""; "b"; ""].
Proof. reflexivity. Qed.

Example reader_onload_jpeg :
  reader_onload jpegDataUrl = Some (mkEncoded (Some "QUFB") "image/jpeg").
Proof. reflexivity. Qed.

Example reader_onload_no_colon : reader_onload "garbage" = None.
Proof. reflexivity. Qed.

Example scenario_A :
  let w := run initialWorld
             [Upload fileA; Click; ReaderDone 0 (Loaded jpegDataUrl);
              RemoteDone 0 (Resolved "Zm9v")] in
  processedImageUrl (ui w) = Some "data:image/png;base64,Zm9v"
  ∧ error (ui w) = None
  ∧ isLoading (ui w) = false
  ∧ remoteCalls w = [mkRequest (Some "QUFB") "image/jpeg" prompt_white].
Proof. vm_compute. done. Qed.

Example scenario_B :
  let w := run initialWorld [Invoke] in
  error (ui w) = Some "Please upload an image first."
  ∧ readerCalls w = [] ∧ remoteCalls w = [].
Proof. vm_compute. done. Qed.

Example scenario_C :
  let w := run initialWorld
             [Upload fileA; Click; ReaderDone 0 (Loaded jpegDataUrl);
              RemoteDone 0 (Rejected quotaExceeded)] in
  error (ui w) = Some "quota exceeded"
  ∧ processedImageUrl (ui w) = None
  ∧ isLoading (ui w) = false.
Proof. vm_compute. done. Qed.

(** ** Invariants of runs *)

Lemma run_snoc w events ev : run w (events ++ [ev]) = step (run w events) ev.
Proof. unfold run. by rewrite foldl_app. Qed.

Lemma ui_run_snoc events ev :
  ui_run (events ++ [ev]) ↔ ui_run events ∧ through_ui ev = true.
Proof.
  unfold ui_run. rewrite forallb_app. simpl.
  rewrite andb_true_r, andb_true_iff. done.
Qed.

(** Induction over a run, from its last event. *)
Lemma run_ind (P : World → Prop) (ok : Event → bool) w :
  P w →
  (∀ v ev, ok ev = true → P v → P (step v ev)) →
  ∀ events, forallb ok events = true → P (run w events).
Proof.
  intros Hw Hstep events. induction events as [|ev events IH] using rev_ind.
  - done.
  - rewrite forallb_app, andb_true_iff. simpl. rewrite andb_true_r.
    intros [Hev Hok]. rewrite run_snoc. auto.
Qed.

Lemma idle_without_file_step w ev :
  idle_without_file w → idle_without_file (step w ev).
Proof.
  unfold idle_without_file. intros Hw.
  destruct ev as [file|option| | |id outcome|id outcome]; simpl.
  - done.
  - exact Hw.
  - unfold clickProcess, handleProcessImage.
    destruct (canProcess (ui w)); [|exact Hw].
    destruct (uploadedFile (ui w)) eqn:Hfile; simpl; [rewrite Hfile; done | auto].
  - unfold handleProcessImage.
    destruct (uploadedFile (ui w)) eqn:Hfile; simpl; [rewrite Hfile; done | auto].
  - unfold resumeAfterFileToBase64.
    destruct (suspended w !! id) as [[file option| |]|]; try exact Hw.
    destruct (fileToBase64 outcome) as [[encoded|err]|]; simpl; auto.
  - unfold resumeAfterProcessImage.
    destruct (suspended w !! id) as [[file option| |]|]; try exact Hw.
    destruct outcome; simpl; auto.
Qed.

Lemma idle_without_file_run events : idle_without_file (run initialWorld events).
Proof.
  apply (run_ind idle_without_file (λ _, true)).
  - done.
  - intros v ev _. apply idle_without_file_step.
  - by induction events.
Qed.

Lemma one_in_flight_lookup w id k :
  one_in_flight w → suspended w !! id = Some k →
  suspended w = {[id := k]}
  ∧ isLoading (ui w) = true
  ∧ processedImageUrl (ui w) = None
  ∧ error (ui w) = None.
Proof.
  intros [Hempty|(id' & k' & Hone & Hrest)] Hid.
  - rewrite Hempty, lookup_empty in Hid. done.
  - rewrite Hone in Hid. apply lookup_singleton_Some in Hid as [-> ->]. done.
Qed.

Lemma one_in_flight_open_gate w :
  one_in_flight w → canProcess (ui w) = true → suspended w = ∅.
Proof.
  unfold canProcess. intros [Hempty|(id & k & _ & Hloading & _)] Hgate; [done|].
  rewrite Hloading in Hgate. by destruct (uploadedFile (ui w)).
Qed.

Lemma one_in_flight_step w ev :
  through_ui ev = true → one_in_flight w → one_in_flight (step w ev).
Proof.
  intros Hev Hw.
  destruct ev as [file|option| | |id outcome|id outcome]; simpl.
  - destruct Hw as [Hempty|(id & k & Hone & Hloading & _)]; [by left|].
    right. exists id, k. done.
  - exact Hw.
  - unfold clickProcess. destruct (canProcess (ui w)) eqn:Hgate; [|exact Hw].
    pose proof (one_in_flight_open_gate _ Hw Hgate) as Hempty.
    unfold handleProcessImage.
    destruct (uploadedFile (ui w)) as [file|] eqn:Hfile.
    + right. eexists _, _. simpl. rewrite Hempty, insert_empty. done.
    + by left.
  - discriminate Hev.
  - unfold resumeAfterFileToBase64.
    destruct (suspended w !! id) as [k|] eqn:Hid; [|exact Hw].
    destruct (one_in_flight_lookup _ _ _ Hw Hid) as (Hone & Hloading & Hresult & Herror).
    destruct k as [file option| |]; try exact Hw.
    destruct (fileToBase64 outcome) as [[encoded|err]|]; simpl.
    + right. eexists id, _. simpl. rewrite Hone, insert_singleton_eq. done.
    + left. simpl. rewrite Hone. apply delete_singleton_eq.
    + right. eexists id, _. simpl. rewrite Hone, insert_singleton_eq. done.
  - unfold resumeAfterProcessImage.
    destruct (suspended w !! id) as [k|] eqn:Hid; [|exact Hw].
    destruct (one_in_flight_lookup _ _ _ Hw Hid) as (Hone & _).
    destruct k as [file option| |]; try exact Hw.
    destruct outcome; left; simpl; rewrite Hone; apply delete_singleton_eq.
Qed.

Lemma one_in_flight_run events :
  ui_run events → one_in_flight (run initialWorld events).
Proof.
  apply (run_ind one_in_flight through_ui).
  - by left.
  - apply one_in_flight_step.
Qed.

(** ** The readiness gate and the three intents *)

(** C7: [canProcess] holds exactly when a file is present and the component
    is not loading; and in every run through the interface, while an
    invocation of [handleProcessImage] is in flight [canProcess] is false
    and a click on the button changes nothing. *)
Theorem canProcess_iff_file_and_idle :
  (∀ s, canProcess s = true ↔ is_Some (uploadedFile s) ∧ isLoading s = false)
  ∧ (∀ events id,
       ui_run events →
       is_Some (suspended (run initialWorld events) !! id) →
       canProcess (ui (run initialWorld events)) = false
       ∧ step (run initialWorld events) Click = run initialWorld events).
Proof.
  split.
  - intros s. unfold canProcess.
    destruct (uploadedFile s) as [file|], (isLoading s); simpl; split;
      try done; intros [Hfile Hidle]; try done; by destruct Hfile.
  - intros events id Hui [k Hid].
    pose proof (one_in_flight_run events Hui) as Hinv.
    destruct (one_in_flight_lookup _ _ _ Hinv Hid) as (_ & Hloading & _).
    assert (canProcess (ui (run initialWorld events)) = false) as Hgate.
    { unfold canProcess. rewrite Hloading. by destruct (uploadedFile _). }
    split; [done|]. simpl. unfold clickProcess. by rewrite Hgate.
Qed.

Lemma canProcess_iff_file_and_idle_witness :
  ui_run [Upload fileA; Click]
  ∧ is_Some (suspended (run initialWorld [Upload fileA; Click]) !! 0)
  ∧ canProcess (ui (run initialWorld [Upload fileA; Click])) = false
  ∧ step (run initialWorld [Upload fileA; Click]) Click
    = run initialWorld [Upload fileA; Click].
Proof.
  assert (ui_run [Upload fileA; Click]) as Hui by reflexivity.
  assert (is_Some (suspended (run initialWorld [Upload fileA; Click]) !! 0)) as Hid
    by (vm_compute; eauto).
  split; [exact Hui|]. split; [exact Hid|].
  exact (proj2 canProcess_iff_file_and_idle [Upload fileA; Click] 0 Hui Hid).
Defined.

(** C3: when [handleProcessImage] is called with no uploaded file, the error
    becomes "Please upload an image first.", the loading flag is left as it
    was, which in every run of the component is false, and no FileReader, no
    call of [processImage] and no suspended invocation is added. *)
Theorem process_without_file_fails w :
  uploadedFile (ui w) = None →
  error (ui (handleProcessImage w)) = Some "Please upload an image first."
  ∧ isLoading (ui (handleProcessImage w)) = isLoading (ui w)
  ∧ readerCalls (handleProcessImage w) = readerCalls w
  ∧ remoteCalls (handleProcessImage w) = remoteCalls w
  ∧ suspended (handleProcessImage w) = suspended w
  ∧ (∀ events, w = run initialWorld events →
               isLoading (ui (handleProcessImage w)) = false).
Proof.
  intros Hfile. unfold handleProcessImage. rewrite Hfile. simpl.
  repeat split; try done.
  intros events ->. by apply (idle_without_file_run events).
Qed.

Lemma process_without_file_fails_witness :
  uploadedFile (ui initialWorld) = None
  ∧ error (ui (handleProcessImage initialWorld)) = Some "Please upload an image first."
  ∧ isLoading (ui (handleProcessImage initialWorld)) = false
  ∧ readerCalls (handleProcessImage initialWorld) = []
  ∧ remoteCalls (handleProcessImage initialWorld) = [].
Proof.
  destruct (process_without_file_fails initialWorld eq_refl)
    as (Herror & _ & Hreader & Hremote & _ & Hidle).
  split; [reflexivity|]. split; [exact Herror|].
  split; [exact (Hidle [] eq_refl)|]. split; [exact Hreader | exact Hremote].
Defined.

(** C8: from every world, [handleImageUpload file] stores the file, sets the
    preview to a fresh object URL that denotes this file, clears the result
    and the error, and does nothing else: the loading flag, the option, the
    suspended invocations and the calls to the FileReader and to
    [processImage] are as before. *)
Theorem upload_replaces_and_clears w file :
  uploadedFile (ui (handleImageUpload file w)) = Some file
  ∧ (∃ url, previewUrl (ui (handleImageUpload file w)) = Some url
            ∧ objectUrls (handleImageUpload file w) !! url = Some file)
  ∧ processedImageUrl (ui (handleImageUpload file w)) = None
  ∧ error (ui (handleImageUpload file w)) = None
  ∧ isLoading (ui (handleImageUpload file w)) = isLoading (ui w)
  ∧ backgroundOption (ui (handleImageUpload file w)) = backgroundOption (ui w)
  ∧ suspended (handleImageUpload file w) = suspended w
  ∧ readerCalls (handleImageUpload file w) = readerCalls w
  ∧ remoteCalls (handleImageUpload file w) = remoteCalls w.
Proof.
  unfold handleImageUpload. simpl. repeat split; try done.
  exists (nextObjectUrl w). split; [done|]. apply lookup_insert_eq.
Qed.

(** C9: choosing an option assigns [backgroundOption] and leaves every other
    field of the state, and everything outside the state, unchanged. *)
Theorem select_option_frame w option :
  backgroundOption (ui (handleOptionChange option w)) = option
  ∧ uploadedFile (ui (handleOptionChange option w)) = uploadedFile (ui w)
  ∧ previewUrl (ui (handleOptionChange option w)) = previewUrl (ui w)
  ∧ processedImageUrl (ui (handleOptionChange option w)) = processedImageUrl (ui w)
  ∧ isLoading (ui (handleOptionChange option w)) = isLoading (ui w)
  ∧ error (ui (handleOptionChange option w)) = error (ui w)
  ∧ objectUrls (handleOptionChange option w) = objectUrls w
  ∧ suspended (handleOptionChange option w) = suspended w
  ∧ readerCalls (handleOptionChange option w) = readerCalls w
  ∧ remoteCalls (handleOptionChange option w) = remoteCalls w.
Proof. unfold handleOptionChange. simpl. done. Qed.

(** ** Completion of an invocation *)

Lemma or_else_truthy a b : truthy (Some b) = true → truthy (Some (or_else a b)) = true.
Proof.
  intros Hb. unfold or_else. destruct (truthy a) eqn:Ha; [|done].
  destruct a as [s|]; [exact Ha | done].
Qed.

Lemma or_else_message m b : m ≠ "" → or_else (Some m) b = m.
Proof.
  intros Hm. unfold or_else. simpl.
  destruct (String.eqb_spec m ""); [done | reflexivity].
Qed.

Lemma catch_finally_ui id err w :
  error (ui (catch_finally id err w)) = Some (or_else (message err) fallbackMessage)
  ∧ isLoading (ui (catch_finally id err w)) = false
  ∧ processedImageUrl (ui (catch_finally id err w)) = processedImageUrl (ui w)
  ∧ uploadedFile (ui (catch_finally id err w)) = uploadedFile (ui w)
  ∧ previewUrl (ui (catch_finally id err w)) = previewUrl (ui w)
  ∧ suspended (catch_finally id err w) = delete id (suspended w).
Proof. done. Qed.

Lemma fails_with_step w id err ev :
  fails_with w id err ev → step w ev = catch_finally id err w.
Proof.
  intros [file option Hid|Hid]; simpl.
  - unfold resumeAfterFileToBase64. by rewrite Hid.
  - unfold resumeAfterProcessImage. by rewrite Hid.
Qed.

(** C4: in every run through the interface, when a suspended invocation
    fails, at the encode step or at the remote call, the error becomes the
    failure's message if it has a non-empty one and "An unexpected error
    occurred." if it has none or an empty one, the loading flag becomes
    false and the result stays empty. *)
Theorem failure_sets_error events id err ev :
  ui_run events →
  fails_with (run initialWorld events) id err ev →
  (∀ m, message err = Some m → m ≠ "" →
        error (ui (step (run initialWorld events) ev)) = Some m)
  ∧ (message err = None ∨ message err = Some "" →
     error (ui (step (run initialWorld events) ev)) = Some "An unexpected error occurred.")
  ∧ isLoading (ui (step (run initialWorld events) ev)) = false
  ∧ processedImageUrl (ui (step (run initialWorld events) ev)) = None.
Proof.
  intros Hui Hfails. rewrite (fails_with_step _ _ _ _ Hfails).
  destruct (catch_finally_ui id err (run initialWorld events))
    as (Herror & Hloading & Hresult & _).
  rewrite Herror, Hloading, Hresult.
  assert (processedImageUrl (ui (run initialWorld events)) = None) as Hempty.
  { pose proof (one_in_flight_run events Hui) as Hinv.
    destruct Hfails as [file option Hid|Hid];
      by destruct (one_in_flight_lookup _ _ _ Hinv Hid) as (_ & _ & ? & _). }
  repeat split; try done.
  - intros m -> Hm. by rewrite or_else_message.
  - by intros [-> | ->].
Qed.

Lemma failure_sets_error_witness :
  let events := [Upload fileA; Click; ReaderDone 0 (Loaded jpegDataUrl)] in
  let after := step (run initialWorld events) (RemoteDone 0 (Rejected quotaExceeded)) in
  ui_run events
  ∧ fails_with (run initialWorld events) 0 quotaExceeded
               (RemoteDone 0 (Rejected quotaExceeded))
  ∧ error (ui after) = Some "quota exceeded"
  ∧ isLoading (ui after) = false
  ∧ processedImageUrl (ui after) = None.
Proof.
  intros events after.
  assert (ui_run events) as Hui by reflexivity.
  assert (fails_with (run initialWorld events) 0 quotaExceeded
                     (RemoteDone 0 (Rejected quotaExceeded))) as Hfails
    by (apply remote_fails; reflexivity).
  destruct (failure_sets_error events 0 quotaExceeded _ Hui Hfails)
    as (Hmessage & _ & Hloading & Hresult).
  split; [exact Hui|]. split; [exact Hfails|].
  split; [|split; [exact Hloading | exact Hresult]].
  apply Hmessage; [reflexivity | discriminate].
Defined.

(** C5: in every run through the interface, when [processImage] resolves
    with payload [p] for the invocation that awaits it, the result becomes
    "data:image/png;base64," followed by [p], whatever the uploaded file,
    the loading flag becomes false and the error is empty. *)
Theorem success_sets_result events id p :
  ui_run events →
  suspended (run initialWorld events) !! id = Some AwaitProcessImage →
  processedImageUrl (ui (step (run initialWorld events) (RemoteDone id (Resolved p))))
    = Some ("data:image/png;base64," ++ p)
  ∧ isLoading (ui (step (run initialWorld events) (RemoteDone id (Resolved p)))) = false
  ∧ error (ui (step (run initialWorld events) (RemoteDone id (Resolved p)))) = None.
Proof.
  intros Hui Hid.
  pose proof (one_in_flight_run events Hui) as Hinv.
  destruct (one_in_flight_lookup _ _ _ Hinv Hid) as (_ & _ & _ & Herror).
  simpl. unfold resumeAfterProcessImage. rewrite Hid. simpl. done.
Qed.

Lemma success_sets_result_witness :
  let events := [Upload fileA; Click; ReaderDone 0 (Loaded jpegDataUrl)] in
  let after := step (run initialWorld events) (RemoteDone 0 (Resolved "Zm9v")) in
  ui_run events
  ∧ suspended (run initialWorld events) !! 0 = Some AwaitProcessImage
  ∧ processedImageUrl (ui after) = Some "data:image/png;base64,Zm9v"
  ∧ isLoading (ui after) = false
  ∧ error (ui after) = None.
Proof.
  intros events after.
  assert (ui_run events) as Hui by reflexivity.
  assert (suspended (run initialWorld events) !! 0 = Some AwaitProcessImage) as Hid
    by reflexivity.
  split; [exact Hui|]. split; [exact Hid|].
  exact (success_sets_result events 0 "Zm9v" Hui Hid).
Defined.

Example encode_failure_uses_fallback :
  let events := [Upload fileA; Click] in
  let after := step (run initialWorld events) (ReaderDone 0 (Errored progressEvent)) in
  fails_with (run initialWorld events) 0 progressEvent (ReaderDone 0 (Errored progressEvent))
  ∧ error (ui after) = Some "An unexpected error occurred."
  ∧ isLoading (ui after) = false.
Proof. split; [by eapply encode_fails | by vm_compute]. Qed.

Lemma settles_cases w id ev :
  one_in_flight w → settles id w ev →
  (∃ err, fails_with w id err ev)
  ∨ (∃ p, suspended w !! id = Some AwaitProcessImage ∧ ev = RemoteDone id (Resolved p)).
Proof.
  intros Hinv [[k Hid] Hgone].
  destruct (one_in_flight_lookup _ _ _ Hinv Hid) as (Hone & _).
  destruct ev as [file|option| | |id' outcome|id' outcome]; simpl in Hgone.
  - congruence.
  - congruence.
  - unfold clickProcess, handleProcessImage in Hgone.
    destruct (canProcess (ui w)); [|congruence].
    destruct (uploadedFile (ui w)); simpl in Hgone; [|congruence].
    apply lookup_insert_None in Hgone as [? _]. congruence.
  - unfold handleProcessImage in Hgone.
    destruct (uploadedFile (ui w)); simpl in Hgone; [|congruence].
    apply lookup_insert_None in Hgone as [? _]. congruence.
  - unfold resumeAfterFileToBase64 in Hgone.
    destruct (suspended w !! id') as [k'|] eqn:Hid'; [|congruence].
    assert (id' = id ∧ k' = k) as [-> ->].
    { rewrite Hone in Hid'. by apply lookup_singleton_Some in Hid' as [-> ->]. }
    destruct k as [file option| |]; try congruence.
    destruct outcome as [result|event]; simpl in Hgone.
    + destruct (reader_onload result); simpl in Hgone;
        by rewrite lookup_insert_eq in Hgone.
    + left. exists event. by eapply encode_fails.
  - unfold resumeAfterProcessImage in Hgone.
    destruct (suspended w !! id') as [k'|] eqn:Hid'; [|congruence].
    assert (id' = id ∧ k' = k) as [-> ->].
    { rewrite Hone in Hid'. by apply lookup_singleton_Some in Hid' as [-> ->]. }
    destruct k as [file option| |]; try congruence.
    destruct outcome as [p|err].
    + right. by exists p.
    + left. exists err. by apply remote_fails.
Qed.

Lemma failure_outcome w id err ev :
  one_in_flight w → fails_with w id err ev →
  error (ui (step w ev)) = Some (or_else (message err) fallbackMessage)
  ∧ processedImageUrl (ui (step w ev)) = None.
Proof.
  intros Hinv Hfails. rewrite (fails_with_step _ _ _ _ Hfails).
  destruct (catch_finally_ui id err w) as (Herror & _ & Hresult & _).
  rewrite Herror, Hresult. split; [done|].
  destruct Hfails as [file option Hid|Hid];
    by destruct (one_in_flight_lookup _ _ _ Hinv Hid) as (_ & _ & ? & _).
Qed.

Lemma settles_completes w id ev :
  one_in_flight w → settles id w ev → completes w id ev.
Proof.
  intros Hinv Hsettles.
  destruct (settles_cases _ _ _ Hinv Hsettles) as [[err Hfails]|(p & Hid & ->)].
  - by eapply completes_failure.
  - by apply completes_success.
Qed.

(** C2: in every run through the interface, when the environment completes
    a suspended invocation of [handleProcessImage], by a FileReader error,
    by a rejection of [processImage] or by its resolving with a payload,
    whatever file and option the invocation ran with, the invocation ends
    and right after it exactly one of the result and the error is
    non-empty: the error and not the result after a failure, the result
    and not the error after a success. *)
Theorem completion_exactly_one_outcome events id ev :
  ui_run events →
  completes (run initialWorld events) id ev →
  exactly_one_outcome (ui (step (run initialWorld events) ev)) = true
  ∧ (∀ err, fails_with (run initialWorld events) id err ev →
       truthy (error (ui (step (run initialWorld events) ev))) = true
       ∧ processedImageUrl (ui (step (run initialWorld events) ev)) = None)
  ∧ (∀ p, ev = RemoteDone id (Resolved p) →
       truthy (processedImageUrl (ui (step (run initialWorld events) ev))) = true
       ∧ error (ui (step (run initialWorld events) ev)) = None)
  ∧ suspended (step (run initialWorld events) ev) !! id = None
  ∧ isLoading (ui (step (run initialWorld events) ev)) = false.
Proof.
  intros Hui Hcompletes.
  pose proof (one_in_flight_run events Hui) as Hinv.
  set (w := run initialWorld events) in *.
  assert (∀ err, fails_with w id err ev →
            truthy (error (ui (step w ev))) = true
            ∧ processedImageUrl (ui (step w ev)) = None) as Hfailure.
  { intros err Hfails.
    destruct (failure_outcome _ _ _ _ Hinv Hfails) as (Herror & Hresult).
    rewrite Herror, Hresult. split; [|done]. by apply or_else_truthy. }
  destruct Hcompletes as [err ev Hfails|p Hid].
  - destruct (Hfailure err Hfails) as [Herror Hresult].
    split; [|split; [exact Hfailure|split; [|split]]].
    + unfold exactly_one_outcome. by rewrite Herror, Hresult.
    + intros p ->. inversion Hfails.
    + rewrite (fails_with_step _ _ _ _ Hfails). simpl. apply lookup_delete_eq.
    + by rewrite (fails_with_step _ _ _ _ Hfails).
  - destruct (one_in_flight_lookup _ _ _ Hinv Hid) as (_ & _ & _ & Herror).
    assert (step w (RemoteDone id (Resolved p))
            = with_suspended (delete id)
                (with_ui (setIsLoading false)
                   (with_ui (setProcessedImageUrl (Some (dataUrlPrefix ++ p))) w)))
      as Hstep.
    { simpl. unfold resumeAfterProcessImage. by rewrite Hid. }
    split; [|split; [exact Hfailure|split; [|split]]].
    + rewrite Hstep. unfold exactly_one_outcome. simpl. by rewrite Herror.
    + intros p' [= <-]. rewrite Hstep. simpl. by rewrite Herror.
    + rewrite Hstep. simpl. apply lookup_delete_eq.
    + by rewrite Hstep.
Qed.

Lemma completion_exactly_one_outcome_witness :
  let reading := [Upload fileA; Click] in
  let failure := ReaderDone 0 (Errored progressEvent) in
  let processing := [Upload fileA; Click; ReaderDone 0 (Loaded jpegDataUrl)] in
  let success := RemoteDone 0 (Resolved "Zm9v") in
  (ui_run reading
   ∧ completes (run initialWorld reading) 0 failure
   ∧ exactly_one_outcome (ui (step (run initialWorld reading) failure)) = true
   ∧ truthy (error (ui (step (run initialWorld reading) failure))) = true)
  ∧ (ui_run processing
     ∧ completes (run initialWorld processing) 0 success
     ∧ exactly_one_outcome (ui (step (run initialWorld processing) success)) = true
     ∧ truthy (processedImageUrl (ui (step (run initialWorld processing) success))) = true).
Proof.
  intros reading failure processing success.
  assert (ui_run reading) as Hui1 by reflexivity.
  assert (fails_with (run initialWorld reading) 0 progressEvent failure) as Hfails
    by (eapply encode_fails; reflexivity).
  assert (completes (run initialWorld reading) 0 failure) as Hdone1
    by (eapply completes_failure; exact Hfails).
  assert (ui_run processing) as Hui2 by reflexivity.
  assert (completes (run initialWorld processing) 0 success) as Hdone2
    by (apply completes_success; reflexivity).
  destruct (completion_exactly_one_outcome reading 0 failure Hui1 Hdone1)
    as (Hone1 & Hfailure & _).
  destruct (completion_exactly_one_outcome processing 0 success Hui2 Hdone2)
    as (Hone2 & _ & Hsuccess & _).
  split.
  - split; [exact Hui1|]. split; [exact Hdone1|]. split; [exact Hone1|].
    exact (proj1 (Hfailure progressEvent Hfails)).
  - split; [exact Hui2|]. split; [exact Hdone2|]. split; [exact Hone2|].
    exact (proj1 (Hsuccess "Zm9v" eq_refl)).
Defined.

(** ** An upload while an invocation is suspended *)

(** C1, as stated, fails: in scenario D the completion of the invocation
    started for file A is not discarded.  After file B has replaced A the
    result is empty; when A's [processImage] then resolves with "Zm9v" the
    result becomes A's data URL although the uploaded file is B. *)
Lemma stale_completion_not_discarded :
  let before := run initialWorld uploadDuringProcessing in
  let after := step before (RemoteDone 0 (Resolved "Zm9v")) in
  ui_run uploadDuringProcessing
  ∧ suspended before !! 0 = Some AwaitProcessImage
  ∧ uploadedFile (ui before) = Some fileB
  ∧ processedImageUrl (ui before) = None
  ∧ uploadedFile (ui after) = Some fileB
  ∧ processedImageUrl (ui after) = Some "data:image/png;base64,Zm9v"
  ∧ ¬ completion_discarded before after.
Proof.
  intros before after. repeat split; try reflexivity.
  intros [Hresult _]. vm_compute in Hresult. discriminate Hresult.
Qed.

(** C1, amended: an upload does not cancel a suspended invocation, and the
    invocation's later completion is written into the state.  If it fails,
    the error becomes the failure's message or the fallback and the result
    stays empty; if it succeeds, the result becomes the data URL of its
    payload and the error stays empty; either way the loading flag becomes
    false, while the uploaded file and the preview stay those of the new
    upload.  An invocation caught by the upload at the encode step still
    sends the old file's encoding with the old option's prompt. *)
Theorem stale_completion_is_written w id k file :
  suspended w !! id = Some k →
  suspended (handleImageUpload file w) !! id = Some k
  ∧ (∀ err ev,
       fails_with (handleImageUpload file w) id err ev →
       error (ui (step (handleImageUpload file w) ev))
         = Some (or_else (message err) "An unexpected error occurred.")
       ∧ processedImageUrl (ui (step (handleImageUpload file w) ev)) = None
       ∧ isLoading (ui (step (handleImageUpload file w) ev)) = false
       ∧ uploadedFile (ui (step (handleImageUpload file w) ev)) = Some file
       ∧ previewUrl (ui (step (handleImageUpload file w) ev))
         = previewUrl (ui (handleImageUpload file w)))
  ∧ (∀ p,
       k = AwaitProcessImage →
       processedImageUrl (ui (step (handleImageUpload file w) (RemoteDone id (Resolved p))))
         = Some ("data:image/png;base64," ++ p)
       ∧ error (ui (step (handleImageUpload file w) (RemoteDone id (Resolved p)))) = None
       ∧ isLoading (ui (step (handleImageUpload file w) (RemoteDone id (Resolved p)))) = false
       ∧ uploadedFile (ui (step (handleImageUpload file w) (RemoteDone id (Resolved p))))
         = Some file
       ∧ previewUrl (ui (step (handleImageUpload file w) (RemoteDone id (Resolved p))))
         = previewUrl (ui (handleImageUpload file w)))
  ∧ (∀ old option result encoded p,
       k = AwaitFileToBase64 old option →
       reader_onload result = Some encoded →
       let final := run (handleImageUpload file w)
                        [ReaderDone id (Loaded result); RemoteDone id (Resolved p)] in
       processedImageUrl (ui final) = Some ("data:image/png;base64," ++ p)
       ∧ error (ui final) = None
       ∧ isLoading (ui final) = false
       ∧ uploadedFile (ui final) = Some file
       ∧ remoteCalls final
         = (remoteCalls w ++ [mkRequest (base64 encoded) (mimeType encoded)
                                        (buildInstruction option)])%list).
Proof.
  intros Hid.
  assert (suspended (handleImageUpload file w) !! id = Some k) as Hid' by exact Hid.
  split; [exact Hid'|]. split; [|split].
  - intros err ev Hfails. rewrite (fails_with_step _ _ _ _ Hfails). done.
  - intros p ->. simpl. unfold resumeAfterProcessImage. rewrite Hid'. done.
  - intros old option result encoded p -> Hencoded final.
    subst final. unfold run. simpl.
    unfold resumeAfterFileToBase64. rewrite Hid'. simpl. rewrite Hencoded. simpl.
    unfold resumeAfterProcessImage. simpl. rewrite lookup_insert_eq. done.
Qed.

Lemma stale_completion_is_written_witness :
  let before := run initialWorld [Upload fileA; Click; ReaderDone 0 (Loaded jpegDataUrl)] in
  let after := step (handleImageUpload fileB before) (RemoteDone 0 (Resolved "Zm9v")) in
  suspended before !! 0 = Some AwaitProcessImage
  ∧ suspended (handleImageUpload fileB before) !! 0 = Some AwaitProcessImage
  ∧ processedImageUrl (ui after) = Some "data:image/png;base64,Zm9v"
  ∧ error (ui after) = None
  ∧ isLoading (ui after) = false
  ∧ uploadedFile (ui after) = Some fileB.
Proof.
  intros before after.
  assert (suspended before !! 0 = Some AwaitProcessImage) as Hid by reflexivity.
  destruct (stale_completion_is_written before 0 AwaitProcessImage fileB Hid)
    as (Hstill & _ & Hsuccess & _).
  destruct (Hsuccess "Zm9v" eq_refl) as (Hresult & Herror & Hloading & Hfile & _).
  split; [exact Hid|]. split; [exact Hstill|]. split; [exact Hresult|].
  split; [exact Herror|]. split; [exact Hloading | exact Hfile].
Defined.

(** ** Object URLs *)

Lemma step_keeps_object_urls w ev :
  is_upload ev = false →
  objectUrls (step w ev) = objectUrls w ∧ nextObjectUrl (step w ev) = nextObjectUrl w.
Proof.
  intros Hev. destruct ev as [file|option| | |id outcome|id outcome]; simpl.
  - discriminate Hev.
  - done.
  - unfold clickProcess, handleProcessImage.
    destruct (canProcess (ui w)); [|done]. by destruct (uploadedFile (ui w)).
  - unfold handleProcessImage. by destruct (uploadedFile (ui w)).
  - unfold resumeAfterFileToBase64.
    destruct (suspended w !! id) as [[file option| |]|]; try done.
    by destruct (fileToBase64 outcome) as [[encoded|err]|].
  - unfold resumeAfterProcessImage.
    destruct (suspended w !! id) as [[file option| |]|]; try done.
    by destruct outcome.
Qed.

Lemma urls_below_next_step w ev :
  urls_below_next w → urls_below_next (step w ev).
Proof.
  unfold urls_below_next. intros Hw url.
  destruct (is_upload ev) eqn:Hev.
  - destruct ev; try discriminate Hev. simpl.
    rewrite lookup_insert. case_decide; [lia|]. intros Hurl.
    specialize (Hw url Hurl). lia.
  - destruct (step_keeps_object_urls w ev Hev) as [-> ->]. apply Hw.
Qed.

Lemma urls_below_next_run events : urls_below_next (run initialWorld events).
Proof.
  apply (run_ind urls_below_next (λ _, true)).
  - intros url [file Hurl]. simpl in Hurl. by rewrite lookup_empty in Hurl.
  - intros v ev _. apply urls_below_next_step.
  - by induction events.
Qed.

Lemma next_object_url_fresh w :
  urls_below_next w → objectUrls w !! nextObjectUrl w = None.
Proof.
  intros Hw. destruct (objectUrls w !! nextObjectUrl w) eqn:Hnext; [|done].
  specialize (Hw (nextObjectUrl w) (mk_is_Some _ _ Hnext)). lia.
Qed.

Lemma count_uploads_snoc events ev :
  count_uploads (events ++ [ev])
  = count_uploads events + (if is_upload ev then 1 else 0).
Proof.
  unfold count_uploads. rewrite List.filter_app, length_app. simpl.
  by destruct (is_upload ev).
Qed.

Lemma object_urls_size events :
  size (objectUrls (run initialWorld events)) = count_uploads events.
Proof.
  induction events as [|ev events IH] using rev_ind; [done|].
  rewrite run_snoc, count_uploads_snoc, <- IH.
  destruct (is_upload ev) eqn:Hev.
  - destruct ev; try discriminate Hev. simpl.
    rewrite map_size_insert_None; [lia|].
    apply next_object_url_fresh, urls_below_next_run.
  - destruct (step_keeps_object_urls (run initialWorld events) ev Hev) as [-> _]. lia.
Qed.

Lemma revokeObjectURL_releases url w : released url (revokeObjectURL url w).
Proof. apply lookup_delete_eq. Qed.

(** C6, as stated, fails: after a second upload the preview is the second
    object URL and the first, superseded one has not been released. *)
Lemma superseded_preview_not_released :
  previewUrl (ui (run initialWorld [Upload fileA])) = Some 0
  ∧ previewUrl (ui (run initialWorld [Upload fileA; Upload fileB])) = Some 1
  ∧ objectUrls (run initialWorld [Upload fileA; Upload fileB]) !! 0 = Some fileA
  ∧ ¬ released 0 (run initialWorld [Upload fileA; Upload fileB]).
Proof.
  repeat split; try reflexivity.
  unfold released. vm_compute. discriminate.
Qed.

(** C6, amended: the component never releases a preview reference.  Every
    upload allocates a fresh object URL, every object URL that is live stays
    live, with the same file, after any further event, and after a run with
    [n] uploads exactly [n] object URLs are live. *)
Theorem previews_are_never_released events :
  size (objectUrls (run initialWorld events)) = count_uploads events
  ∧ (∀ file, objectUrls (run initialWorld events)
               !! nextObjectUrl (run initialWorld events) = None
             ∧ previewUrl (ui (step (run initialWorld events) (Upload file)))
               = Some (nextObjectUrl (run initialWorld events)))
  ∧ (∀ ev url file,
       objectUrls (run initialWorld events) !! url = Some file →
       objectUrls (step (run initialWorld events) ev) !! url = Some file
       ∧ ¬ released url (step (run initialWorld events) ev)).
Proof.
  pose proof (urls_below_next_run events) as Hinv.
  split; [apply object_urls_size|]. split.
  - intros file. split; [by apply next_object_url_fresh | done].
  - intros ev url file Hurl.
    assert (objectUrls (step (run initialWorld events) ev) !! url = Some file) as Hlive.
    { destruct (is_upload ev) eqn:Hev.
      - destruct ev; try discriminate Hev. simpl.
        rewrite lookup_insert_ne; [done|].
        specialize (Hinv url (mk_is_Some _ _ Hurl)). lia.
      - by destruct (step_keeps_object_urls (run initialWorld events) ev Hev) as [-> _]. }
    split; [exact Hlive|]. unfold released. by rewrite Hlive.
Qed.

Lemma previews_are_never_released_witness :
  objectUrls (run initialWorld [Upload fileA]) !! 0 = Some fileA
  ∧ objectUrls (step (run initialWorld [Upload fileA]) (Upload fileB)) !! 0 = Some fileA
  ∧ size (objectUrls (run initialWorld [Upload fileA; Upload fileB])) = 2.
Proof.
  assert (objectUrls (run initialWorld [Upload fileA]) !! 0 = Some fileA) as Hurl
    by reflexivity.
  split; [exact Hurl|]. split.
  - exact (proj1 (proj2 (proj2 (previews_are_never_released [Upload fileA]))
                   (Upload fileB) 0 fileA Hurl)).
  - exact (proj1 (previews_are_never_released [Upload fileA; Upload fileB])).
Defined.

(** ** The instruction *)

(** C10: the instruction is a function of the option alone, with one fixed
    string per variant.  The one for [WHITE] asks to replace the background
    with a plain white one under soft studio lighting, the one for
    [ORIGINAL] asks to keep the original background, polished and slightly
    blurred; the two strings differ; and the prompt sent to [processImage]
    is the instruction of the option the invocation started with. *)
Theorem buildInstruction_fixed_and_distinct :
  buildInstruction WHITE
  = "Enhance this photo to be a clean, modern, professional, realistic headshot. Replace the background with a clean, plain white background with natural, soft studio lighting."
  ∧ buildInstruction ORIGINAL
    = "Enhance this photo to be a clean, modern, professional, realistic headshot with great natural lighting. Keep the original background but make it look more polished, slightly blurred, and high-quality, as if taken by a professional photographer."
  ∧ buildInstruction WHITE ≠ buildInstruction ORIGINAL
  ∧ occurs_in "Replace the background" (buildInstruction WHITE) = true
  ∧ occurs_in "plain white background" (buildInstruction WHITE) = true
  ∧ occurs_in "soft studio lighting" (buildInstruction WHITE) = true
  ∧ occurs_in "Keep the original background" (buildInstruction ORIGINAL) = true
  ∧ occurs_in "polished" (buildInstruction ORIGINAL) = true
  ∧ occurs_in "slightly blurred" (buildInstruction ORIGINAL) = true
  ∧ occurs_in "Replace the background" (buildInstruction ORIGINAL) = false
  ∧ occurs_in "Keep the original background" (buildInstruction WHITE) = false
  ∧ (∀ w id file option result,
       suspended w !! id = Some (AwaitFileToBase64 file option) →
       is_Some (reader_onload result) →
       req_prompt <$> last (remoteCalls (step w (ReaderDone id (Loaded result))))
       = Some (buildInstruction option)).
Proof.
  repeat split; try by vm_compute.
  intros w id file option result Hid [encoded Hencoded]. simpl.
  unfold resumeAfterFileToBase64. rewrite Hid. simpl. rewrite Hencoded. simpl.
  by rewrite last_snoc.
Qed.

Lemma buildInstruction_fixed_and_distinct_witness :
  let w := run initialWorld [Upload fileA; SelectOption ORIGINAL; Click] in
  suspended w !! 0 = Some (AwaitFileToBase64 fileA ORIGINAL)
  ∧ is_Some (reader_onload jpegDataUrl)
  ∧ req_prompt <$> last (remoteCalls (step w (ReaderDone 0 (Loaded jpegDataUrl))))
    = Some prompt_original.
Proof.
  intros w.
  assert (suspended w !! 0 = Some (AwaitFileToBase64 fileA ORIGINAL)) as Hid
    by reflexivity.
  assert (is_Some (reader_onload jpegDataUrl)) as Hload by (vm_compute; eauto).
  split; [exact Hid|]. split; [exact Hload|].
  exact (proj2 (proj2 (proj2 (proj2 (proj2 (proj2 (proj2 (proj2 (proj2 (proj2 (proj2
           buildInstruction_fixed_and_distinct))))))))))
           w 0 fileA ORIGINAL jpegDataUrl Hid Hload).
Defined.

(** ** [split] and [fileToBase64] *)

Lemma append_cons c a b : String c a ++ b = String c (a ++ b).
Proof. reflexivity. Qed.

Lemma append_nil_l b : "" ++ b = b.
Proof. reflexivity. Qed.

Lemma append_nil_r a : a ++ "" = a.
Proof. induction a as [|c a IH]; [done|]. by rewrite append_cons, IH. Qed.

Lemma append_assoc a b c : (a ++ b) ++ c = a ++ b ++ c.
Proof. induction a as [|c' a IH]; [done|]. by rewrite !append_cons, IH. Qed.

Lemma split_cons sep s : ∃ piece pieces, split sep s = piece :: pieces.
Proof.
  destruct s as [|c rest]; simpl; [eauto|].
  destruct (Ascii.eqb c sep); [eauto|]. destruct (split sep rest); eauto.
Qed.

Lemma split_first_piece sep s : split sep s !! 0 = Some (first_piece sep s).
Proof.
  unfold first_piece. by destruct (split_cons sep s) as (piece & pieces & ->).
Qed.

Lemma has_char_app c a b : has_char c (a ++ b) = has_char c a || has_char c b.
Proof.
  induction a as [|c' a IH]; [done|].
  rewrite ?append_cons. simpl. rewrite IH. by rewrite orb_assoc.
Qed.

Lemma split_without_sep sep s : has_char sep s = false → split sep s = [s].
Proof.
  induction s as [|c rest IH]; simpl; [done|].
  intros [Hc Hrest]%orb_false_iff. rewrite Hc. by rewrite (IH Hrest).
Qed.

Lemma split_app_sep sep a b :
  has_char sep a = false → split sep (a ++ String sep b) = a :: split sep b.
Proof.
  induction a as [|c a IH].
  - intros _. rewrite append_nil_l. simpl. by rewrite Ascii.eqb_refl.
  - simpl. intros [Hc Ha]%orb_false_iff.
    rewrite ?append_cons. simpl. rewrite Hc. by rewrite (IH Ha).
Qed.

Lemma first_piece_app sep a b :
  has_char sep a = false → first_piece sep (a ++ b) = a ++ first_piece sep b.
Proof.
  unfold first_piece. induction a as [|c a IH]; [done|].
  simpl. intros [Hc Ha]%orb_false_iff. specialize (IH Ha).
  rewrite ?append_cons. simpl. rewrite Hc.
  destruct (split_cons sep (a ++ b)) as (piece & pieces & Hsplit).
  rewrite Hsplit in IH |- *. simpl in *. by rewrite IH.
Qed.

Lemma split_second_piece sep s : split sep s !! 1 = None ↔ has_char sep s = false.
Proof.
  induction s as [|c rest IH]; simpl; [done|].
  destruct (Ascii.eqb c sep) eqn:Hc; simpl.
  - destruct (split_cons sep rest) as (piece & pieces & ->). done.
  - destruct (split_cons sep rest) as (piece & pieces & Hsplit).
    rewrite Hsplit in IH |- *. exact IH.
Qed.

Lemma split_pieces_without c sep s :
  has_char c s = false → Forall (λ piece, has_char c piece = false) (split sep s).
Proof.
  induction s as [|c' rest IH]; simpl; [by repeat constructor|].
  intros [Hc Hrest]%orb_false_iff. specialize (IH Hrest).
  destruct (Ascii.eqb c' sep).
  - by constructor.
  - destruct (split sep rest) as [|piece pieces].
    + repeat constructor. simpl. by rewrite Hc.
    + inversion IH; subst. constructor; [|done]. simpl. by rewrite Hc.
Qed.

Lemma split_pieces_without_sep sep s :
  Forall (λ piece, has_char sep piece = false) (split sep s).
Proof.
  induction s as [|c rest IH]; simpl; [by repeat constructor|].
  destruct (Ascii.eqb c sep) eqn:Hc.
  - by constructor.
  - destruct (split sep rest) as [|piece pieces].
    + repeat constructor. simpl. by rewrite Hc.
    + inversion IH; subst. constructor; [|done]. simpl. by rewrite Hc.
Qed.

(** X1: on a data URL [data:<mime><tail>,<payload>], where the media type
    holds none of , : ; and the tail is empty or starts with ; and holds no
    comma, and the payload holds no comma, [reader.onload] resolves with
    exactly the payload and the media type. *)
Theorem reader_onload_data_url mime tail payload :
  has_char "," mime = false →
  has_char ":" mime = false →
  has_char ";" mime = false →
  has_char "," tail = false →
  (tail = "" ∨ ∃ params, tail = String ";" params) →
  has_char "," payload = false →
  reader_onload ("data:" ++ mime ++ tail ++ "," ++ payload)
  = Some (mkEncoded (Some payload) mime).
Proof.
  intros Hcomma Hcolon Hsemi Htail Hshape Hpayload.
  assert (has_char "," ("data:" ++ mime ++ tail) = false) as Hheader.
  { rewrite !has_char_app, Hcomma, Htail. reflexivity. }
  assert ("data:" ++ mime ++ tail ++ "," ++ payload
          = ("data:" ++ mime ++ tail) ++ String "," payload) as ->.
  { by rewrite !append_assoc. }
  unfold reader_onload.
  rewrite (split_app_sep _ _ _ Hheader), (split_without_sep _ _ Hpayload). simpl.
  rewrite append_nil_l, split_first_piece. simpl.
  rewrite (first_piece_app _ _ _ Hcolon), split_first_piece. simpl.
  rewrite (first_piece_app _ _ _ Hsemi).
  assert (first_piece ";" (first_piece ":" tail) = "") as ->.
  { destruct Hshape as [-> | [params ->]]; [reflexivity|].
    unfold first_piece. simpl.
    by destruct (split_cons ":" params) as (piece & pieces & ->). }
  by rewrite append_nil_r.
Qed.

Lemma reader_onload_data_url_witness :
  reader_onload ("data:" ++ "image/jpeg" ++ ";base64" ++ "," ++ "QUFB")
  = Some (mkEncoded (Some "QUFB") "image/jpeg").
Proof.
  apply reader_onload_data_url; try reflexivity. right. by eexists.
Defined.

(** X2: [reader.onload] throws, so that the promise of [fileToBase64] is
    never settled, exactly when the text before the first comma of the
    FileReader's result holds no colon. *)
Theorem reader_onload_throws_iff result :
  reader_onload result = None ↔ has_char ":" (first_piece "," result) = false.
Proof.
  unfold reader_onload. rewrite split_first_piece. simpl.
  rewrite <- split_second_piece.
  destruct (split ":" (first_piece "," result) !! 1) as [afterColon|]; simpl; [|done].
  rewrite split_first_piece. simpl. done.
Qed.

Lemma piece_without c sep s i piece :
  has_char c s = false → split sep s !! i = Some piece → has_char c piece = false.
Proof.
  intros Hs. apply (Forall_lookup_1 (λ p, has_char c p = false)).
  by apply split_pieces_without.
Qed.

Lemma piece_without_sep sep s i piece :
  split sep s !! i = Some piece → has_char sep piece = false.
Proof.
  apply (Forall_lookup_1 (λ p, has_char sep p = false)), split_pieces_without_sep.
Qed.

(** X3: when [reader.onload] resolves, the media type it extracts holds
    none of , : ; and the payload, which is undefined exactly when the
    result has no comma, holds no comma. *)
Theorem reader_onload_fields result encoded :
  reader_onload result = Some encoded →
  (base64 encoded = None ↔ has_char "," result = false)
  ∧ (∀ payload, base64 encoded = Some payload → has_char "," payload = false)
  ∧ has_char "," (mimeType encoded) = false
  ∧ has_char ":" (mimeType encoded) = false
  ∧ has_char ";" (mimeType encoded) = false.
Proof.
  unfold reader_onload. rewrite split_first_piece. simpl.
  destruct (split ":" (first_piece "," result) !! 1) as [afterColon|] eqn:Hcolon;
    simpl; [|done].
  rewrite split_first_piece. simpl. intros [= <-]. simpl.
  pose proof (piece_without_sep _ _ _ _ (split_first_piece "," result)) as Hheader.
  pose proof (piece_without _ _ _ _ _ Hheader Hcolon) as Hcomma.
  pose proof (piece_without_sep _ _ _ _ Hcolon) as Hcolon'.
  split; [apply split_second_piece|]. split; [|split; [|split]].
  - intros payload Hpayload. exact (piece_without_sep _ _ _ _ Hpayload).
  - exact (piece_without _ _ _ _ _ Hcomma (split_first_piece ";" afterColon)).
  - exact (piece_without _ _ _ _ _ Hcolon' (split_first_piece ";" afterColon)).
  - exact (piece_without_sep _ _ _ _ (split_first_piece ";" afterColon)).
Qed.

Lemma reader_onload_fields_witness :
  reader_onload "data:text/plain;charset=utf-8;base64,aGk=,tail"
  = Some (mkEncoded (Some "aGk=") "text/plain")
  ∧ has_char "," "aGk=" = false
  ∧ has_char ";" "text/plain" = false.
Proof.
  assert (reader_onload "data:text/plain;charset=utf-8;base64,aGk=,tail"
          = Some (mkEncoded (Some "aGk=") "text/plain")) as Hload by reflexivity.
  destruct (reader_onload_fields _ _ Hload) as (_ & Hpayload & _ & _ & Hsemi).
  split; [exact Hload|]. split; [exact (Hpayload "aGk=" eq_refl) | exact Hsemi].
Defined.

(** ** Further invariants of runs *)

Lemma all_events (events : list Event) : forallb (λ _, true) events = true.
Proof. by induction events. Qed.

Lemma step_keeps_file w ev :
  is_upload ev = false →
  uploadedFile (ui (step w ev)) = uploadedFile (ui w)
  ∧ previewUrl (ui (step w ev)) = previewUrl (ui w).
Proof.
  intros Hev. destruct ev as [file|option| | |id outcome|id outcome]; simpl.
  - discriminate Hev.
  - done.
  - unfold clickProcess, handleProcessImage.
    destruct (canProcess (ui w)); [|done].
    by destruct (uploadedFile (ui w)) eqn:Hfile.
  - unfold handleProcessImage. by destruct (uploadedFile (ui w)) eqn:Hfile.
  - unfold resumeAfterFileToBase64.
    destruct (suspended w !! id) as [[file option| |]|]; try done.
    by destruct (fileToBase64 outcome) as [[encoded|err]|].
  - unfold resumeAfterProcessImage.
    destruct (suspended w !! id) as [[file option| |]|]; try done.
    by destruct outcome.
Qed.

Lemma last_upload_snoc events ev :
  last_upload (events ++ [ev])
  = match ev with Upload file => Some file | _ => last_upload events end.
Proof. unfold last_upload. by rewrite foldl_app. Qed.

Lemma uploaded_file_source events :
  uploadedFile (ui (run initialWorld events)) = last_upload events
  ∧ previewUrl (ui (run initialWorld events))
      ≫= (λ url, objectUrls (run initialWorld events) !! url)
    = last_upload events
  ∧ (previewUrl (ui (run initialWorld events)) = None ↔ last_upload events = None).
Proof.
  induction events as [|ev events IH] using rev_ind; [by repeat split|].
  destruct IH as (IHfile & IHurl & IHnone).
  rewrite run_snoc, last_upload_snoc.
  destruct (is_upload ev) eqn:Hev.
  - destruct ev; try discriminate Hev. simpl.
    split; [done|]. split; [apply lookup_insert_eq | done].
  - destruct (step_keeps_file (run initialWorld events) ev Hev) as [-> ->].
    destruct (step_keeps_object_urls (run initialWorld events) ev Hev) as [-> _].
    by destruct ev.
Qed.

(** X4: in every run the uploaded file is the file of the last upload,
    none before the first one, and the preview is a live object URL of
    exactly that file: nothing but an upload changes or clears either. *)
Theorem uploaded_file_is_last_upload events :
  uploadedFile (ui (run initialWorld events)) = last_upload events
  ∧ previewUrl (ui (run initialWorld events))
      ≫= (λ url, objectUrls (run initialWorld events) !! url)
    = last_upload events
  ∧ (previewUrl (ui (run initialWorld events)) = None ↔ last_upload events = None).
Proof. exact (uploaded_file_source events). Qed.

Lemma idle_when_none_suspended_step w ev :
  idle_when_none_suspended w → idle_when_none_suspended (step w ev).
Proof.
  unfold idle_when_none_suspended. intros Hw.
  destruct ev as [file|option| | |id outcome|id outcome]; simpl.
  - exact Hw.
  - exact Hw.
  - unfold clickProcess, handleProcessImage.
    destruct (canProcess (ui w)); [|exact Hw].
    destruct (uploadedFile (ui w)); simpl; [|exact Hw].
    intros Hempty. by apply insert_non_empty in Hempty.
  - unfold handleProcessImage.
    destruct (uploadedFile (ui w)); simpl; [|exact Hw].
    intros Hempty. by apply insert_non_empty in Hempty.
  - unfold resumeAfterFileToBase64.
    destruct (suspended w !! id) as [[file option| |]|]; try exact Hw.
    destruct (fileToBase64 outcome) as [[encoded|err]|]; simpl; try done.
    + intros Hempty. by apply insert_non_empty in Hempty.
    + intros Hempty. by apply insert_non_empty in Hempty.
  - unfold resumeAfterProcessImage.
    destruct (suspended w !! id) as [[file option| |]|]; try exact Hw.
    by destruct outcome.
Qed.

Lemma idle_when_none_suspended_run events :
  idle_when_none_suspended (run initialWorld events).
Proof.
  apply (run_ind idle_when_none_suspended (λ _, true)).
  - done.
  - intros v ev _. apply idle_when_none_suspended_step.
  - apply all_events.
Qed.

(** X5: in every run through the interface the component is loading
    exactly while an invocation of [handleProcessImage] is suspended, and
    while it is loading both the result and the error are empty. *)
Theorem loading_iff_suspended events :
  ui_run events →
  (isLoading (ui (run initialWorld events)) = true
   ↔ suspended (run initialWorld events) ≠ ∅)
  ∧ (isLoading (ui (run initialWorld events)) = true →
     processedImageUrl (ui (run initialWorld events)) = None
     ∧ error (ui (run initialWorld events)) = None).
Proof.
  intros Hui.
  pose proof (one_in_flight_run events Hui) as Hinv.
  pose proof (idle_when_none_suspended_run events) as Hidle.
  assert (isLoading (ui (run initialWorld events)) = true
          → suspended (run initialWorld events) ≠ ∅) as Hsome.
  { intros Hloading Hempty. rewrite (Hidle Hempty) in Hloading. done. }
  split; [split; [exact Hsome|] |].
  - destruct Hinv as [Hempty|(id & k & _ & Hloading & _)]; done.
  - intros Hloading.
    destruct Hinv as [Hempty|(id & k & _ & _ & Hresult & Herror)]; [|done].
    by destruct (Hsome Hloading).
Qed.

Lemma loading_iff_suspended_witness :
  ui_run [Upload fileA; Click]
  ∧ isLoading (ui (run initialWorld [Upload fileA; Click])) = true
  ∧ suspended (run initialWorld [Upload fileA; Click]) ≠ ∅
  ∧ processedImageUrl (ui (run initialWorld [Upload fileA; Click])) = None
  ∧ error (ui (run initialWorld [Upload fileA; Click])) = None.
Proof.
  assert (ui_run [Upload fileA; Click]) as Hui by reflexivity.
  assert (isLoading (ui (run initialWorld [Upload fileA; Click])) = true) as Hloading
    by reflexivity.
  destruct (loading_iff_suspended _ Hui) as [[Hsome _] Hclear].
  destruct (Hclear Hloading) as [Hresult Herror].
  split; [exact Hui|]. split; [exact Hloading|]. split; [exact (Hsome Hloading)|].
  split; [exact Hresult | exact Herror].
Defined.

Lemma not_both_step w ev :
  through_ui ev = true → one_in_flight w → not_both w → not_both (step w ev).
Proof.
  unfold not_both. intros Hev Hinv Hw.
  destruct ev as [file|option| | |id outcome|id outcome]; simpl.
  - by left.
  - exact Hw.
  - unfold clickProcess, canProcess, handleProcessImage.
    destruct (uploadedFile (ui w)); [|exact Hw].
    destruct (negb (isLoading (ui w))); [by left | exact Hw].
  - discriminate Hev.
  - unfold resumeAfterFileToBase64.
    destruct (suspended w !! id) as [k|] eqn:Hid; [|exact Hw].
    destruct (one_in_flight_lookup _ _ _ Hinv Hid) as (_ & _ & Hresult & Herror).
    destruct k as [file option| |]; try exact Hw.
    destruct (fileToBase64 outcome) as [[encoded|err]|]; simpl; try exact Hw.
    by left.
  - unfold resumeAfterProcessImage.
    destruct (suspended w !! id) as [k|] eqn:Hid; [|exact Hw].
    destruct (one_in_flight_lookup _ _ _ Hinv Hid) as (_ & _ & Hresult & Herror).
    destruct k as [file option| |]; try exact Hw.
    destruct outcome; simpl; [by right | by left].
Qed.

Lemma not_both_run events : ui_run events → not_both (run initialWorld events).
Proof.
  intros Hui.
  apply (run_ind (λ w, one_in_flight w ∧ not_both w) through_ui); [| |exact Hui].
  - split; [by left | by left].
  - intros v ev Hev [Hinv Hnot].
    split; [by apply one_in_flight_step | by apply not_both_step].
Qed.

(** X6: in every run through the interface, at every moment and not only
    when an invocation ends, the result and the error are not both set;
    so the error alert and the download link are never rendered together. *)
Theorem result_and_error_exclusive events :
  ui_run events →
  (processedImageUrl (ui (run initialWorld events)) = None
   ∨ error (ui (run initialWorld events)) = None)
  ∧ (view_errorAlert (renderApp (ui (run initialWorld events))) = None
     ∨ panel_download (snd (view_panels (renderApp (ui (run initialWorld events))))) = None).
Proof.
  intros Hui. pose proof (not_both_run events Hui) as Hnot.
  split; [exact Hnot|].
  destruct Hnot as [Hresult|Herror]; simpl.
  - right. by rewrite Hresult.
  - left. by rewrite Herror.
Qed.

Lemma result_and_error_exclusive_witness :
  let events := [Upload fileA; Click; ReaderDone 0 (Loaded jpegDataUrl);
                 RemoteDone 0 (Resolved "Zm9v")] in
  ui_run events
  ∧ error (ui (run initialWorld events)) = None
  ∧ (processedImageUrl (ui (run initialWorld events)) = None
     ∨ error (ui (run initialWorld events)) = None).
Proof.
  intros events.
  assert (ui_run events) as Hui by reflexivity.
  split; [exact Hui|]. split; [reflexivity|].
  exact (proj1 (result_and_error_exclusive events Hui)).
Defined.

(** ** Where the result and the error come from *)

Lemma result_step w ev url :
  processedImageUrl (ui (step w ev)) = Some url →
  processedImageUrl (ui w) = Some url
  ∨ ∃ id p, ev = RemoteDone id (Resolved p) ∧ url = dataUrlPrefix ++ p.
Proof.
  destruct ev as [file|option| | |id outcome|id outcome]; simpl.
  - done.
  - by left.
  - unfold clickProcess, handleProcessImage.
    destruct (canProcess (ui w)); [|by left].
    destruct (uploadedFile (ui w)); simpl; [done | by left].
  - unfold handleProcessImage.
    destruct (uploadedFile (ui w)); simpl; [done | by left].
  - unfold resumeAfterFileToBase64.
    destruct (suspended w !! id) as [[file option| |]|]; try by left.
    destruct (fileToBase64 outcome) as [[encoded|err]|]; simpl; by left.
  - unfold resumeAfterProcessImage.
    destruct (suspended w !! id) as [[file option| |]|]; try by left.
    destruct outcome as [p|err]; simpl; [|by left].
    intros [= <-]. right. by exists id, p.
Qed.

Lemma or_else_nonempty a b : b ≠ "" → or_else a b ≠ "".
Proof.
  intros Hb. unfold or_else. destruct a as [s|]; simpl; [|done].
  by destruct (String.eqb_spec s "").
Qed.

Lemma error_step w ev m :
  error (ui (step w ev)) = Some m →
  error (ui w) = Some m
  ∨ (ev = Invoke ∧ m = validationMessage)
  ∨ ∃ id err, (ev = ReaderDone id (Errored err) ∨ ev = RemoteDone id (Rejected err))
              ∧ m = or_else (message err) fallbackMessage.
Proof.
  destruct ev as [file|option| | |id outcome|id outcome]; simpl.
  - done.
  - by left.
  - unfold clickProcess, canProcess, handleProcessImage.
    destruct (uploadedFile (ui w)); [|by left].
    destruct (negb (isLoading (ui w))); simpl; [done | by left].
  - unfold handleProcessImage.
    destruct (uploadedFile (ui w)); simpl; [done|].
    intros [= <-]. right. by left.
  - unfold resumeAfterFileToBase64.
    destruct (suspended w !! id) as [[file option| |]|]; try by left.
    destruct outcome as [result|event]; simpl.
    + destruct (reader_onload result); simpl; by left.
    + intros [= <-]. right. right. exists id, event. split; [by left | done].
  - unfold resumeAfterProcessImage.
    destruct (suspended w !! id) as [[file option| |]|]; try by left.
    destruct outcome as [p|err]; simpl; [by left|].
    intros [= <-]. right. right. exists id, err. split; [by right | done].
Qed.

(** X7: in every run, a result that is set is "data:image/png;base64,"
    followed by a payload with which [processImage] resolved earlier in
    that run; so a download link, when one is rendered, is in the processed
    panel only, points to such a PNG data URL and carries the file name
    "jawahar-edited-photo.png". *)
Theorem result_comes_from_remote events :
  (∀ url,
     processedImageUrl (ui (run initialWorld events)) = Some url →
     ∃ id p, RemoteDone id (Resolved p) ∈ events
             ∧ url = "data:image/png;base64," ++ p)
  ∧ panel_download (fst (view_panels (renderApp (ui (run initialWorld events))))) = None
  ∧ (∀ link,
       panel_download (snd (view_panels (renderApp (ui (run initialWorld events)))))
         = Some link →
       download link = "jawahar-edited-photo.png"
       ∧ ∃ id p, RemoteDone id (Resolved p) ∈ events
                 ∧ href link = DataUrl ("data:image/png;base64," ++ p)).
Proof.
  assert (∀ url,
     processedImageUrl (ui (run initialWorld events)) = Some url →
     ∃ id p, RemoteDone id (Resolved p) ∈ events
             ∧ url = "data:image/png;base64," ++ p) as Hresult.
  { induction events as [|ev events IH] using rev_ind; [done|].
    intros url. rewrite run_snoc. intros [Hold|(id & p & -> & ->)]%result_step.
    - destruct (IH url Hold) as (id & p & Hin & ->).
      exists id, p. split; [|done]. apply elem_of_app. by left.
    - exists id, p. split; [|done]. apply elem_of_app. right. by apply list_elem_of_singleton. }
  split; [exact Hresult|]. split.
  - simpl. by rewrite andb_false_r.
  - intros link. simpl.
    destruct (processedImageUrl (ui (run initialWorld events))) as [url|] eqn:Hurl;
      simpl; [|done].
    rewrite andb_true_r. destruct (negb (String.eqb url "")); [|done].
    intros [= <-]. simpl. split; [done|].
    destruct (Hresult url eq_refl) as (id & p & Hin & ->). by exists id, p.
Qed.

Lemma result_comes_from_remote_witness :
  let events := [Upload fileA; Click; ReaderDone 0 (Loaded jpegDataUrl);
                 RemoteDone 0 (Resolved "Zm9v")] in
  processedImageUrl (ui (run initialWorld events)) = Some "data:image/png;base64,Zm9v"
  ∧ ∃ id p, RemoteDone id (Resolved p) ∈ events
            ∧ "data:image/png;base64,Zm9v" = "data:image/png;base64," ++ p.
Proof.
  intros events.
  assert (processedImageUrl (ui (run initialWorld events))
          = Some "data:image/png;base64,Zm9v") as Hurl by reflexivity.
  split; [exact Hurl|].
  exact (proj1 (result_comes_from_remote events) _ Hurl).
Defined.

(** X8: in every run, an error that is set is never the empty string, and
    it is either the validation message of a direct call of
    [handleProcessImage], which the button never makes, or the message, or
    else the fallback, of a failure delivered earlier in that run. *)
Theorem error_comes_from_failure events m :
  error (ui (run initialWorld events)) = Some m →
  m ≠ ""
  ∧ ((Invoke ∈ events ∧ m = "Please upload an image first.")
     ∨ ∃ id err,
         (ReaderDone id (Errored err) ∈ events ∨ RemoteDone id (Rejected err) ∈ events)
         ∧ m = or_else (message err) "An unexpected error occurred.").
Proof.
  revert m. induction events as [|ev events IH] using rev_ind; [done|].
  intros m. rewrite run_snoc.
  intros [Hold|[[-> ->]|(id & err & Hev & ->)]]%error_step.
  - destruct (IH m Hold) as [Hm Hwhy]. split; [exact Hm|].
    destruct Hwhy as [[Hin ->]|(id & err & Hin & ->)].
    + left. split; [|done]. apply elem_of_app. by left.
    + right. exists id, err. split; [|done].
      destruct Hin as [Hin|Hin]; [left | right]; apply elem_of_app; by left.
  - split; [done|]. left. split; [|done].
    apply elem_of_app. right. by apply list_elem_of_singleton.
  - split; [by apply or_else_nonempty|]. right. exists id, err. split; [|done].
    destruct Hev as [-> | ->]; [left | right];
      apply elem_of_app; right; by apply list_elem_of_singleton.
Qed.

Lemma error_comes_from_failure_witness :
  let events := [Upload fileA; Click; ReaderDone 0 (Loaded jpegDataUrl);
                 RemoteDone 0 (Rejected quotaExceeded)] in
  error (ui (run initialWorld events)) = Some "quota exceeded"
  ∧ "quota exceeded" ≠ "".
Proof.
  intros events.
  assert (error (ui (run initialWorld events)) = Some "quota exceeded") as Herror
    by reflexivity.
  split; [exact Herror|].
  exact (proj1 (error_comes_from_failure events _ Herror)).
Defined.

(** ** The calls the component makes *)

Lemma calls_step w ev :
  (readerCalls (step w ev) = readerCalls w
   ∨ ((ev = Click ∨ ev = Invoke)
      ∧ ∃ file, uploadedFile (ui w) = Some file
                ∧ readerCalls (step w ev) = (readerCalls w ++ [file])%list))
  ∧ (remoteCalls (step w ev) = remoteCalls w
     ∨ ∃ id file option result encoded,
         ev = ReaderDone id (Loaded result)
         ∧ suspended w !! id = Some (AwaitFileToBase64 file option)
         ∧ reader_onload result = Some encoded
         ∧ remoteCalls (step w ev)
           = (remoteCalls w ++ [mkRequest (base64 encoded) (mimeType encoded)
                                          (buildInstruction option)])%list).
Proof.
  destruct ev as [file|option| | |id outcome|id outcome]; simpl.
  - split; by left.
  - split; by left.
  - unfold clickProcess, handleProcessImage.
    destruct (canProcess (ui w)); [|split; by left].
    destruct (uploadedFile (ui w)) as [file|]; simpl; [|split; by left].
    split; [right | by left]. split; [by left | by exists file].
  - unfold handleProcessImage.
    destruct (uploadedFile (ui w)) as [file|]; simpl; [|split; by left].
    split; [right | by left]. split; [by right | by exists file].
  - unfold resumeAfterFileToBase64.
    destruct (suspended w !! id) as [[file option| |]|] eqn:Hid; try (split; by left).
    destruct outcome as [result|event]; simpl; [|split; by left].
    destruct (reader_onload result) as [encoded|] eqn:Hload; simpl; [|split; by left].
    split; [by left|]. right. by exists id, file, option, result, encoded.
  - unfold resumeAfterProcessImage.
    destruct (suspended w !! id) as [[file option| |]|]; try (split; by left).
    destruct outcome; split; by left.
Qed.

(** X9: in every run, each call of [processImage] carries one of the two
    fixed prompts, and a payload and a media type that [reader.onload]
    extracted from a FileReader result delivered in that run. *)
Theorem remote_requests_well_formed events request :
  request ∈ remoteCalls (run initialWorld events) →
  (req_prompt request = prompt_white ∨ req_prompt request = prompt_original)
  ∧ ∃ id result encoded,
      ReaderDone id (Loaded result) ∈ events
      ∧ reader_onload result = Some encoded
      ∧ req_base64 request = base64 encoded
      ∧ req_mimeType request = mimeType encoded.
Proof.
  induction events as [|ev events IH] using rev_ind.
  - intros Hin. by apply elem_of_nil in Hin.
  - rewrite run_snoc.
    destruct (calls_step (run initialWorld events) ev)
      as [_ [->|(id & file & option & result & encoded & -> & _ & Hload & ->)]].
    + intros Hin. destruct (IH Hin) as (Hprompt & id & result & encoded & Hev & Hrest).
      split; [exact Hprompt|]. exists id, result, encoded.
      split; [apply elem_of_app; by left | exact Hrest].
    + intros [Hin| ->%list_elem_of_singleton]%elem_of_app.
      * destruct (IH Hin) as (Hprompt & id' & result' & encoded' & Hev & Hrest).
        split; [exact Hprompt|]. exists id', result', encoded'.
        split; [apply elem_of_app; by left | exact Hrest].
      * split; [by destruct option; [right | left]|].
        exists id, result, encoded. split; [|done].
        apply elem_of_app. right. by apply list_elem_of_singleton.
Qed.

Lemma remote_requests_well_formed_witness :
  let events := [Upload fileA; Click; ReaderDone 0 (Loaded jpegDataUrl)] in
  mkRequest (Some "QUFB") "image/jpeg" prompt_white ∈ remoteCalls (run initialWorld events)
  ∧ (prompt_white = prompt_white ∨ prompt_white = prompt_original).
Proof.
  intros events.
  assert (mkRequest (Some "QUFB") "image/jpeg" prompt_white
          ∈ remoteCalls (run initialWorld events)) as Hin
    by (apply list_elem_of_singleton; reflexivity).
  split; [exact Hin|].
  exact (proj1 (remote_requests_well_formed events _ Hin)).
Defined.

Lemma count_clicks_snoc events ev :
  count_clicks (events ++ [ev])
  = count_clicks events + (if is_click ev then 1 else 0).
Proof.
  unfold count_clicks. rewrite List.filter_app, length_app. simpl.
  by destruct (is_click ev).
Qed.

Lemma calls_paired_step w ev :
  through_ui ev = true → one_in_flight w → calls_paired w → calls_paired (step w ev).
Proof.
  intros Hev Hinv Hw. pose proof Hw as [Hle Hlt].
  destruct ev as [file|option| | |id outcome|id outcome]; simpl.
  - exact Hw.
  - exact Hw.
  - unfold clickProcess. destruct (canProcess (ui w)) eqn:Hgate; [|exact Hw].
    unfold handleProcessImage.
    destruct (uploadedFile (ui w)) as [file|]; [|exact Hw].
    unfold calls_paired. simpl. rewrite length_app. simpl. split; [lia|]. intros _. lia.
  - discriminate Hev.
  - unfold resumeAfterFileToBase64.
    destruct (suspended w !! id) as [k|] eqn:Hid; [|exact Hw].
    destruct (one_in_flight_lookup _ _ _ Hinv Hid) as (Hone & _).
    destruct k as [file option| |]; try exact Hw.
    assert (length (remoteCalls w) < length (readerCalls w))%nat as Hstrict by eauto.
    destruct (fileToBase64 outcome) as [[encoded|err]|];
      unfold calls_paired; simpl; rewrite ?length_app; simpl; (split; [lia|]);
      intros (id' & file' & option' & Hid'); exfalso; rewrite Hone in Hid'.
    + rewrite insert_singleton_eq in Hid'.
      by apply lookup_singleton_Some in Hid' as [_ ?].
    + by rewrite delete_singleton_eq, lookup_empty in Hid'.
    + rewrite insert_singleton_eq in Hid'.
      by apply lookup_singleton_Some in Hid' as [_ ?].
  - unfold resumeAfterProcessImage.
    destruct (suspended w !! id) as [k|] eqn:Hid; [|exact Hw].
    destruct (one_in_flight_lookup _ _ _ Hinv Hid) as (Hone & _).
    destruct k as [file option| |]; try exact Hw.
    destruct outcome; unfold calls_paired; simpl; (split; [lia|]);
      intros (id' & file' & option' & Hid'); exfalso; rewrite Hone in Hid';
      by rewrite delete_singleton_eq, lookup_empty in Hid'.
Qed.

Lemma reader_calls_step w ev :
  through_ui ev = true →
  (length (readerCalls (step w ev))
   ≤ length (readerCalls w) + (if is_click ev then 1 else 0))%nat.
Proof.
  intros Hev.
  destruct (calls_step w ev) as [[->|[[-> | ->] (file & _ & ->)]] _].
  - lia.
  - rewrite length_app. simpl. lia.
  - discriminate Hev.
Qed.

(** X10: in every run through the interface there are at most as many
    calls of [processImage] as FileReaders started, and at most as many
    FileReaders started as clicks on the button: one click costs at most
    one remote call. *)
Theorem one_remote_call_per_click events :
  ui_run events →
  (length (remoteCalls (run initialWorld events))
   ≤ length (readerCalls (run initialWorld events)))%nat
  ∧ (length (readerCalls (run initialWorld events)) ≤ count_clicks events)%nat.
Proof.
  intros Hui. split.
  - apply (run_ind (λ w, one_in_flight w ∧ calls_paired w) through_ui); [| |exact Hui].
    + split; [by left|]. split; [done|]. intros (id & file & option & Hid).
      simpl in Hid. by rewrite lookup_empty in Hid.
    + intros v ev Hev [Hinv Hpaired].
      split; [by apply one_in_flight_step | by apply calls_paired_step].
  - induction events as [|ev events IH] using rev_ind; [done|].
    apply ui_run_snoc in Hui as [Hui Hev].
    rewrite run_snoc, count_clicks_snoc.
    pose proof (reader_calls_step (run initialWorld events) ev Hev).
    specialize (IH Hui). lia.
Qed.

Lemma one_remote_call_per_click_witness :
  let events := [Upload fileA; Click; Click; ReaderDone 0 (Loaded jpegDataUrl); Click] in
  ui_run events
  ∧ (length (remoteCalls (run initialWorld events)) ≤ 1)%nat
  ∧ count_clicks events = 3.
Proof.
  intros events.
  assert (ui_run events) as Hui by reflexivity.
  destruct (one_remote_call_per_click events Hui) as [Hremote Hreader].
  split; [exact Hui|]. split; [|reflexivity].
  exact (Nat.le_trans _ _ _ Hremote (le_n 1)).
Defined.

(** ** An invocation that never ends, and one that does *)

Lemma run_app w events more : run w (events ++ more) = run (run w events) more.
Proof. unfold run. by rewrite foldl_app. Qed.

Lemma ui_run_app events more : ui_run (events ++ more) ↔ ui_run events ∧ ui_run more.
Proof. unfold ui_run. by rewrite forallb_app, andb_true_iff. Qed.

Lemma never_settled_step w ev id :
  through_ui ev = true → one_in_flight w →
  suspended w !! id = Some NeverSettled →
  step w ev = w ∨ (is_intent ev = true ∧ suspended (step w ev) = suspended w
                   ∧ remoteCalls (step w ev) = remoteCalls w).
Proof.
  intros Hev Hinv Hid.
  destruct (one_in_flight_lookup _ _ _ Hinv Hid) as (Hone & Hloading & _).
  destruct ev as [file|option| | |id' outcome|id' outcome]; simpl.
  - by right.
  - by right.
  - left. unfold clickProcess, canProcess. rewrite Hloading.
    by destruct (uploadedFile (ui w)).
  - discriminate Hev.
  - left. unfold resumeAfterFileToBase64.
    destruct (suspended w !! id') as [k|] eqn:Hid'; [|done].
    rewrite Hone in Hid'. by apply lookup_singleton_Some in Hid' as [_ <-].
  - left. unfold resumeAfterProcessImage.
    destruct (suspended w !! id') as [k|] eqn:Hid'; [|done].
    rewrite Hone in Hid'. by apply lookup_singleton_Some in Hid' as [_ <-].
Qed.

Lemma never_settled_run w more id :
  ui_run more → one_in_flight w →
  suspended w !! id = Some NeverSettled →
  one_in_flight (run w more)
  ∧ suspended (run w more) !! id = Some NeverSettled
  ∧ remoteCalls (run w more) = remoteCalls w.
Proof.
  intros Hui Hinv Hid.
  induction more as [|ev more IH] using rev_ind; [done|].
  apply ui_run_snoc in Hui as [Hui Hev].
  destruct (IH Hui) as (Hinv' & Hid' & Hcalls).
  rewrite run_snoc. split; [by apply one_in_flight_step|].
  destruct (never_settled_step _ _ _ Hev Hinv' Hid') as [-> |(_ & -> & ->)]; done.
Qed.

(** X11: in a run through the interface, when the FileReader of a suspended
    invocation delivers a result from which [reader.onload] cannot read a
    media type, the invocation is never ended: whatever happens afterwards
    the component stays loading, the button stays disabled and
    [processImage] is not called again. *)
Theorem unreadable_result_loads_forever events id file option result more :
  ui_run (events ++ ReaderDone id (Loaded result) :: more) →
  suspended (run initialWorld events) !! id = Some (AwaitFileToBase64 file option) →
  reader_onload result = None →
  isLoading (ui (run initialWorld (events ++ ReaderDone id (Loaded result) :: more))) = true
  ∧ canProcess (ui (run initialWorld (events ++ ReaderDone id (Loaded result) :: more)))
    = false
  ∧ remoteCalls (run initialWorld (events ++ ReaderDone id (Loaded result) :: more))
    = remoteCalls (run initialWorld events).
Proof.
  intros [Hui [_ Hmore]%(ui_run_app [_])]%ui_run_app Hid Hload.
  pose proof (one_in_flight_run events Hui) as Hinv.
  rewrite run_app.
  change (ReaderDone id (Loaded result) :: more)
    with ([ReaderDone id (Loaded result)] ++ more)%list.
  rewrite run_app.
  set (w := run initialWorld events) in *.
  assert (run w [ReaderDone id (Loaded result)]
          = with_suspended (<[id := NeverSettled]>) w) as ->.
  { unfold run. simpl. unfold resumeAfterFileToBase64. rewrite Hid. simpl.
    by rewrite Hload. }
  assert (one_in_flight (with_suspended (<[id := NeverSettled]>) w)) as Hinv'.
  { destruct (one_in_flight_lookup _ _ _ Hinv Hid) as (Hone & Hrest).
    right. exists id, NeverSettled. simpl. by rewrite Hone, insert_singleton_eq. }
  destruct (never_settled_run _ more id Hmore Hinv') as (Hinv'' & Hid'' & Hcalls).
  { simpl. apply lookup_insert_eq. }
  destruct (one_in_flight_lookup _ _ _ Hinv'' Hid'') as (_ & Hloading & _).
  split; [exact Hloading|]. split; [|exact Hcalls].
  unfold canProcess. rewrite Hloading. by destruct (uploadedFile _).
Qed.

Lemma unreadable_result_loads_forever_witness :
  let events := [Upload fileA; Click] in
  let more := [Click; Upload fileB; RemoteDone 0 (Resolved "Zm9v"); Click] in
  ui_run (events ++ ReaderDone 0 (Loaded "garbage") :: more)
  ∧ reader_onload "garbage" = None
  ∧ isLoading (ui (run initialWorld (events ++ ReaderDone 0 (Loaded "garbage") :: more)))
    = true.
Proof.
  intros events more.
  assert (ui_run (events ++ ReaderDone 0 (Loaded "garbage") :: more)) as Hui
    by reflexivity.
  assert (reader_onload "garbage" = None) as Hload by reflexivity.
  split; [exact Hui|]. split; [exact Hload|].
  exact (proj1 (unreadable_result_loads_forever events 0 fileA WHITE "garbage" more
                  Hui eq_refl Hload)).
Defined.





(** ** What an invocation sends *)




(** ** The uploader *)

(** X14: a drop and a change of the file input hand over the first file
    only.  With no file list or an empty one the world is unchanged, so an
    earlier upload, result and error are kept; with several files the
    first becomes the uploaded file, exactly one object URL is allocated
    and the other files are ignored.  A drop always ends the dragging
    state. *)
Theorem uploader_takes_first_file (files : option (list File)) (dragging : bool) w :
  handleDrop handleImageUpload files (dragging, w)
  = (false, handleChange handleImageUpload files w)
  ∧ (files = None ∨ files = Some [] → handleChange handleImageUpload files w = w)
  ∧ (∀ file rest,
       files = Some (file :: rest) →
       handleChange handleImageUpload files w = handleImageUpload file w
       ∧ uploadedFile (ui (handleChange handleImageUpload files w)) = Some file
       ∧ nextObjectUrl (handleChange handleImageUpload files w) = S (nextObjectUrl w)).
Proof.
  split; [|split].
  - unfold handleDrop, handleChange. by destruct (firstFile files).
  - by intros [-> | ->].
  - by intros file rest ->.
Qed.

Lemma uploader_takes_first_file_witness :
  handleChange handleImageUpload (Some []) initialWorld = initialWorld
  ∧ uploadedFile (ui (handleChange handleImageUpload (Some [fileA; fileB]) initialWorld))
    = Some fileA.
Proof.
  split.
  - apply (proj1 (proj2 (uploader_takes_first_file (Some []) false initialWorld))).
    by right.
  - exact (proj1 (proj2 (proj2 (proj2 (uploader_takes_first_file
             (Some [fileA; fileB]) false initialWorld)) fileA [fileB] eq_refl))).
Defined.

(** ** The option selector *)

Lemma checked_radios values selectedOption :
  NoDup values →
  radio_option <$> List.filter radio_checked (OptionsSelector values selectedOption)
  = if decide (selectedOption ∈ values) then [selectedOption] else [].
Proof.
  unfold OptionsSelector.
  induction values as [|value values IH]; intros Hnodup.
  - destruct (decide (selectedOption ∈ [])) as [Hin|]; [|done].
    by apply elem_of_nil in Hin.
  - apply NoDup_cons in Hnodup as [Hfresh Hnodup]. specialize (IH Hnodup).
    rewrite fmap_cons. simpl.
    destruct (bool_decide (selectedOption = value)) eqn:Heq.
    + apply bool_decide_eq_true in Heq. subst value.
      rewrite fmap_cons. simpl. rewrite IH.
      rewrite decide_False by done.
      by rewrite decide_True by apply list_elem_of_here.
    + apply bool_decide_eq_false in Heq. rewrite IH.
      destruct (decide (selectedOption ∈ values)) as [Hin|Hin].
      * by rewrite decide_True by (by apply list_elem_of_further).
      * rewrite decide_False; [done|]. by intros [?|?]%elem_of_cons.
Qed.

(** X15: if [Object.values(BackgroundOption)] lists every option once, the
    selector renders exactly one checked radio, that of the selected
    option; the radio of [ORIGINAL] is titled "Keep Original" and every
    other one "Clean White"; and after a radio's [onChange] the checked
    radio is the one that was chosen. *)
Theorem selector_checks_selected values selectedOption :
  NoDup values →
  selectedOption ∈ values →
  radio_option <$> List.filter radio_checked (OptionsSelector values selectedOption)
  = [selectedOption]
  ∧ radio_option <$> OptionsSelector values selectedOption = values
  ∧ (∀ radio, radio ∈ OptionsSelector values selectedOption →
              (radio_title radio = "Keep Original" ↔ radio_option radio = ORIGINAL)
              ∧ (radio_title radio = "Clean White" ↔ radio_option radio = WHITE))
  ∧ (∀ w chosen, chosen ∈ values →
       radio_option <$> List.filter radio_checked
         (OptionsSelector values (backgroundOption (ui (handleOptionChange chosen w))))
       = [chosen]).
Proof.
  intros Hnodup Hin. split; [|split; [|split]].
  - rewrite (checked_radios _ _ Hnodup). by rewrite decide_True.
  - unfold OptionsSelector. rewrite <- list_fmap_compose.
    clear. induction values as [|value values IH]; [done|].
    rewrite fmap_cons. by rewrite IH.
  - unfold OptionsSelector. intros radio (option & -> & _)%list_elem_of_fmap. simpl.
    by destruct option.
  - intros w chosen Hchosen. simpl.
    rewrite (checked_radios _ _ Hnodup). by rewrite decide_True.
Qed.

Lemma selector_checks_selected_witness :
  NoDup [ORIGINAL; WHITE]
  ∧ WHITE ∈ [ORIGINAL; WHITE]
  ∧ radio_option <$> List.filter radio_checked (OptionsSelector [ORIGINAL; WHITE] WHITE)
    = [WHITE].
Proof.
  assert (NoDup [ORIGINAL; WHITE]) as Hnodup.
  { apply NoDup_cons. split; [|apply NoDup_singleton].
    intros Hin%list_elem_of_singleton. discriminate Hin. }
  assert (WHITE ∈ [ORIGINAL; WHITE]) as Hin
    by (apply list_elem_of_further, list_elem_of_here).
  split; [exact Hnodup|]. split; [exact Hin|].
  exact (proj1 (selector_checks_selected [ORIGINAL; WHITE] WHITE Hnodup Hin)).
Defined.

(** ** The rendered page *)

(** X16: in every state the button reads "Processing..." exactly when the
    spinner is shown, and then it is disabled; the uploader and the
    original panel show the same preview.  In every run through the
    interface, while the spinner is shown there is no error alert and no
    download link, and the processed panel shows its placeholder. *)
Theorem view_while_loading :
  (∀ s,
     (view_buttonLabel (renderApp s) = "Processing..." ↔ view_spinner (renderApp s) = true)
     ∧ (view_spinner (renderApp s) = true → view_buttonDisabled (renderApp s) = true)
     ∧ panel_image (fst (view_panels (renderApp s))) = view_uploaderPreview (renderApp s))
  ∧ (∀ events,
       ui_run events →
       view_spinner (renderApp (ui (run initialWorld events))) = true →
       view_errorAlert (renderApp (ui (run initialWorld events))) = None
       ∧ panel_download (snd (view_panels (renderApp (ui (run initialWorld events))))) = None
       ∧ panel_placeholder (snd (view_panels (renderApp (ui (run initialWorld events)))))
         = Some "Your enhanced photo will appear here").
Proof.
  split.
  - intros s. simpl. unfold canProcess. split; [|split].
    + by destruct (isLoading s).
    + intros ->. by destruct (uploadedFile s).
    + by destruct (previewUrl s).
  - intros events Hui Hspinner. simpl in Hspinner.
    pose proof (one_in_flight_run events Hui) as Hinv.
    pose proof (idle_when_none_suspended_run events) as Hidle.
    destruct Hinv as [Hempty|(id & k & _ & _ & Hresult & Herror)].
    + rewrite (Hidle Hempty) in Hspinner. discriminate Hspinner.
    + simpl. by rewrite Hresult, Herror.
Qed.

Lemma view_while_loading_witness :
  ui_run [Upload fileA; Click]
  ∧ view_spinner (renderApp (ui (run initialWorld [Upload fileA; Click]))) = true
  ∧ view_errorAlert (renderApp (ui (run initialWorld [Upload fileA; Click]))) = None.
Proof.
  assert (ui_run [Upload fileA; Click]) as Hui by reflexivity.
  split; [exact Hui|]. split; [reflexivity|].
  exact (proj1 (proj2 view_while_loading [Upload fileA; Click] Hui eq_refl)).
Defined.

(** X17: in every run the original panel shows its placeholder "Upload a
    photo to start" exactly as long as no file has been uploaded, and
    afterwards the preview it shows is a live object URL of the file of the
    last upload. *)
Theorem original_panel_shows_last_upload events :
  (panel_placeholder (fst (view_panels (renderApp (ui (run initialWorld events)))))
   = Some "Upload a photo to start" ↔ last_upload events = None)
  ∧ (∀ file, last_upload events = Some file →
       ∃ url, panel_image (fst (view_panels (renderApp (ui (run initialWorld events)))))
              = Some (ObjectUrl url)
              ∧ objectUrls (run initialWorld events) !! url = Some file).
Proof.
  destruct (uploaded_file_source events) as (_ & Hurl & Hnone). simpl.
  destruct (previewUrl (ui (run initialWorld events))) as [url|]; simpl in *.
  - split.
    + split; [done|]. intros Hlast. by apply Hnone in Hlast.
    + intros file Hlast. exists url. by rewrite Hurl.
  - split.
    + split; [intros _; by apply Hnone | done].
    + intros file Hlast. rewrite <- Hurl in Hlast. done.
Qed.

Lemma original_panel_shows_last_upload_witness :
  last_upload [Upload fileA; Click; Upload fileB] = Some fileB
  ∧ ∃ url, panel_image (fst (view_panels (renderApp
             (ui (run initialWorld [Upload fileA; Click; Upload fileB])))))
           = Some (ObjectUrl url)
           ∧ objectUrls (run initialWorld [Upload fileA; Click; Upload fileB]) !! url
             = Some fileB.
Proof.
  split; [reflexivity|].
  exact (proj2 (original_panel_shows_last_upload [Upload fileA; Click; Upload fileB])
           fileB eq_refl).
Defined.

(** ** Starting an invocation *)

(** X18: in every run, a click on the enabled button starts exactly one
    FileReader, on the file of the last upload, suspends one new invocation
    that holds this file and the option selected at that moment, shows the
    component as loading and clears the result and the error; it does not
    call [processImage] yet. *)
Theorem click_reads_last_upload events :
  canProcess (ui (run initialWorld events)) = true →
  ∃ file,
    last_upload events = Some file
    ∧ readerCalls (step (run initialWorld events) Click)
      = (readerCalls (run initialWorld events) ++ [file])%list
    ∧ remoteCalls (step (run initialWorld events) Click)
      = remoteCalls (run initialWorld events)
    ∧ suspended (step (run initialWorld events) Click)
        !! nextInvocation (run initialWorld events)
      = Some (AwaitFileToBase64 file (backgroundOption (ui (run initialWorld events))))
    ∧ isLoading (ui (step (run initialWorld events) Click)) = true
    ∧ processedImageUrl (ui (step (run initialWorld events) Click)) = None
    ∧ error (ui (step (run initialWorld events) Click)) = None.
Proof.
  intros Hgate.
  destruct (uploaded_file_source events) as (Hfile & _).
  simpl. unfold clickProcess. rewrite Hgate.
  unfold canProcess in Hgate. unfold handleProcessImage.
  destruct (uploadedFile (ui (run initialWorld events))) as [file|]; [|done].
  exists file. simpl. repeat split; try done. apply lookup_insert_eq.
Qed.

Lemma click_reads_last_upload_witness :
  let events := [Upload fileA; SelectOption ORIGINAL; Upload fileB] in
  canProcess (ui (run initialWorld events)) = true
  ∧ ∃ file, last_upload events = Some file
            ∧ readerCalls (step (run initialWorld events) Click) = [file].
Proof.
  intros events.
  assert (canProcess (ui (run initialWorld events)) = true) as Hgate by reflexivity.
  split; [exact Hgate|].
  destruct (click_reads_last_upload events Hgate) as (file & Hlast & Hreader & _).
  exists file. split; [exact Hlast | exact Hreader].
Defined.
